(** * Terra core: lazy settings store and signal dispatcher

    A shallow embedding of [terra/core/settings.py] and
    [terra/core/signals.py].

    Python objects are modelled by their contents.  A [dict] is an
    association list in insertion order (Python dictionaries iterate in
    insertion order and keep every key once).  Deep copies are the identity
    on these immutable values.  Code that mutates an object in place is
    written as a function from the old contents to the new contents.
    Functions that can raise return a result together with the state reached
    when the exception left the function, so that partial in-place updates
    stay visible. *)

From Stdlib Require Import List String Ascii ZArith Bool Arith Lia.
Import ListNotations.
Local Open Scope string_scope.
Local Open Scope list_scope.

Set Implicit Arguments.

(* ===================================================================== *)
(** * Part I: the model *)
(* ===================================================================== *)

(** ** Exceptions and results *)

(** The exceptions.  [OtherError] stands for any other class that
    derives from [Exception]; [SystemExit], [KeyboardInterrupt] and
    [GeneratorExit] derive from [BaseException] only. *)
Inductive exn : Type :=
| AttributeError (msg : string)
| KeyError (key : string)
| IndexError (msg : string)
| TypeError (msg : string)
| NameError (name : string)
| FileNotFoundError (path : string)
| ImproperlyConfigured (msg : string)
| ValueError (msg : string)
| OtherError (tag : string)
| SystemExit (code : string)
| KeyboardInterrupt
| GeneratorExit.

(** [isinstance(e, Exception)]: what [except Exception] catches. *)
Definition is_Exception (e : exn) : bool :=
  match e with
  | SystemExit _ | KeyboardInterrupt | GeneratorExit => false
  | _ => true
  end.

Inductive res (A : Type) : Type :=
| Ok (a : A)
| Err (e : exn).
Arguments Ok {A} a.
Arguments Err {A} e.

Definition is_err {A} (r : res A) : bool :=
  match r with Ok _ => false | Err _ => true end.

(** ** Values stored in a settings container *)

Local Unset Elimination Schemes.

(** The configuration values: what [json.load] produces, plus functions
    (a [settings_property] is a function carrying the attribute
    [settings_property = True]) and the [ExpandedString] subclass of
    [str]. *)
Inductive value : Type :=
| VNone
| VBool (b : bool)
| VInt (z : Z)
| VStr (s : string)
| VExpanded (s : string)
| VFunc (f : string) (settings_property : bool)
| VList (l : list value)
| VDict (d : list (string * value)).

Local Set Elimination Schemes.

Definition dict : Type := list (string * value).

Inductive outcome : Type :=
| Returns (v : value)
| Raises (e : exn).

Definition is_container (v : value) : bool :=
  match v with
  | VList _ | VDict _ => true
  | _ => false
  end.

(** Induction over values that goes into the elements of lists and into
    the values of nested containers. *)
Section ValueInduction.
Variable P : value -> Prop.
Hypothesis P_atom : forall v, is_container v = false -> P v.
Hypothesis P_list : forall l, Forall P l -> P (VList l).
Hypothesis P_dict : forall d, Forall (fun kv => P (snd kv)) d -> P (VDict d).

Fixpoint value_induction (v : value) : P v :=
  match v as v0 return is_container v0 = is_container v0 -> P v0 with
  | VList l =>
      fun _ =>
        P_list
          ((fix go (l : list value) : Forall P l :=
              match l with
              | [] => Forall_nil P
              | x :: l' => Forall_cons x (value_induction x) (go l')
              end) l)
  | VDict d =>
      fun _ =>
        P_dict
          ((fix go (d : list (string * value))
              : Forall (fun kv => P (snd kv)) d :=
              match d with
              | [] => Forall_nil _
              | kv :: d' =>
                  Forall_cons kv (value_induction (snd kv)) (go d')
              end) d)
  | v0 => fun E => P_atom v0 E
  end eq_refl.
End ValueInduction.

(** *** Dictionary primitives ([dict.__getitem__], [__setitem__], ...) *)

Fixpoint getitem (d : dict) (k : string) : option value :=
  match d with
  | [] => None
  | (k', v) :: d' => if String.eqb k' k then Some v else getitem d' k
  end.

(** [d[k] = v]: an existing key keeps its position, a new key goes last. *)
Fixpoint setitem (k : string) (v : value) (d : dict) : dict :=
  match d with
  | [] => [(k, v)]
  | (k', v') :: d' =>
      if String.eqb k' k then (k', v) :: d' else (k', v') :: setitem k v d'
  end.

Fixpoint delitem (k : string) (d : dict) : dict :=
  match d with
  | [] => []
  | (k', v') :: d' =>
      if String.eqb k' k then d' else (k', v') :: delitem k d'
  end.

Definition keys (d : dict) : list string := map fst d.

Fixpoint mem_string (k : string) (l : list string) : bool :=
  match l with
  | [] => false
  | k' :: l' => String.eqb k' k || mem_string k l'
  end.

Fixpoint nodup_keys (l : list string) : bool :=
  match l with
  | [] => true
  | k :: l' => negb (mem_string k l') && nodup_keys l'
  end.

(** A Python dictionary holds every key once, at every depth.  This is the
    representation invariant of the association lists. *)
Fixpoint well_formed (v : value) : bool :=
  match v with
  | VList l => forallb well_formed l
  | VDict d =>
      nodup_keys (map fst d)
      && (fix all (d : dict) : bool :=
            match d with
            | [] => true
            | (_, x) :: d' => well_formed x && all d'
            end) d
  | _ => true
  end.

Definition wf_dict (d : dict) : bool := well_formed (VDict d).

(** Python's [==] on these values.  [bool] is a subclass of [int], an
    [ExpandedString] compares as the [str] it is, functions compare by
    identity, lists compare element by element and dictionaries compare
    without regard to order. *)
Fixpoint py_eq (v w : value) {struct v} : bool :=
  match v with
  | VNone => match w with VNone => true | _ => false end
  | VBool a =>
      match w with
      | VBool b => Bool.eqb a b
      | VInt z => Z.eqb (Z.b2z a) z
      | _ => false
      end
  | VInt a =>
      match w with
      | VInt b => Z.eqb a b
      | VBool b => Z.eqb a (Z.b2z b)
      | _ => false
      end
  | VStr a | VExpanded a =>
      match w with
      | VStr b | VExpanded b => String.eqb a b
      | _ => false
      end
  | VFunc f p =>
      match w with
      | VFunc g q => String.eqb f g && Bool.eqb p q
      | _ => false
      end
  | VList l =>
      match w with
      | VList m =>
          (fix go (l m : list value) {struct l} : bool :=
             match l, m with
             | [], [] => true
             | x :: l', y :: m' => py_eq x y && go l' m'
             | _, _ => false
             end) l m
      | _ => false
      end
  | VDict d =>
      match w with
      | VDict e =>
          Nat.eqb (List.length d) (List.length e)
          && (fix go (d : dict) : bool :=
                match d with
                | [] => true
                | (k, x) :: d' =>
                    match getitem e k with
                    | Some y => py_eq x y
                    | None => false
                    end && go d'
                end) d
      | _ => false
      end
  end.

Definition is_mapping (v : value) : bool :=
  match v with VDict _ => true | _ => false end.

(** [str.endswith] *)
Definition endswith (s suffix : string) : bool :=
  let n := String.length s in
  let m := String.length suffix in
  (m <=? n)%nat && String.eqb (substring (n - m) m s) suffix.

Definition any_endswith (name : string) (suffixes : list string) : bool :=
  existsb (endswith name) suffixes.

(** ** The helpers imported from [vsi.tools.python]

    [settings.py] imports [nested_update], [nested_in_dict] and
    [nested_patch_inplace] from the external package [vsi]; their text is
    not part of the terra sources. *)

Module vsi.

(** Modelled from the spec: [nested_update] of [vsi.tools.python] is
    missing.  The merge goes through the incoming mapping key by key; an
    incoming nested container is merged recursively into the container
    stored at that key (a fresh container when the key is absent or holds
    something else), and an incoming value of any other kind replaces
    what is stored. *)
Fixpoint nested_update_value (cur : option value) (v : value) {struct v}
  : value :=
  match v with
  | VDict inc =>
      VDict
        ((fix go (d inc : dict) {struct inc} : dict :=
            match inc with
            | [] => d
            | (k, w) :: rest =>
                go (setitem k (nested_update_value (getitem d k) w) d) rest
            end)
           (match cur with Some (VDict d) => d | _ => [] end) inc)
  | _ => v
  end.

(** Modelled from the spec: [nested_update(dict_, incoming)] of
    [vsi.tools.python] is missing.  This is the merge above, on the
    container [d] that is updated in place. *)
Fixpoint nested_update (d inc : dict) {struct inc} : dict :=
  match inc with
  | [] => d
  | (k, w) :: rest =>
      nested_update (setitem k (nested_update_value (getitem d k) w) d) rest
  end.

(** Modelled from the spec: [nested_in_dict] of [vsi.tools.python] is
    missing.  Deep containment: every key of the pattern is present in the
    container, nested containers are compared recursively and every other
    value must be equal. *)
Fixpoint nested_in_value (v : value) (w : option value) {struct v} : bool :=
  match v with
  | VDict p =>
      match w with
      | Some (VDict c) =>
          (fix all (p : dict) : bool :=
             match p with
             | [] => true
             | (k, x) :: p' => nested_in_value x (getitem c k) && all p'
             end) p
      | _ => false
      end
  | _ =>
      match w with
      | Some y => py_eq y v
      | None => false
      end
  end.

Definition nested_in_dict (dict1 dict2 : dict) : bool :=
  nested_in_value (VDict dict1) (Some (VDict dict2)).

(** Modelled from the spec: [nested_patch_inplace] of [vsi.tools.python] is
    missing.  The container is walked in place; a value whose key
    satisfies [condition] is replaced by [patch key value], any other
    nested container is walked in turn.  [patch] may raise: the walk stops
    there and the replacements already made stay in the container. *)
Section NestedPatch.
Variable S : Type.
Variable condition : string -> value -> bool.
Variable patch : string -> value -> S -> res value * S.

Fixpoint nested_patch_value (v : value) (s : S) {struct v}
    : value * option exn * S :=
    match v with
    | VDict d =>
        let '(d', e, s') :=
          (fix go (d : dict) (s : S) {struct d} : dict * option exn * S :=
             match d with
             | [] => ([], None, s)
             | (k, x) :: rest =>
                 if condition k x then
                   match patch k x s with
                   | (Ok y, s1) =>
                       let '(rest', e, s2) := go rest s1 in
                       ((k, y) :: rest', e, s2)
                   | (Err e, s1) => ((k, x) :: rest, Some e, s1)
                   end
                 else
                   match nested_patch_value x s with
                   | (x', None, s1) =>
                       let '(rest', e, s2) := go rest s1 in
                       ((k, x') :: rest', e, s2)
                   | (x', Some e, s1) => ((k, x') :: rest, Some e, s1)
                   end
             end) d s in
        (VDict d', e, s')
    | _ => (v, None, s)
    end.

(** The walk over the items of one container, as a function of its own. *)
Fixpoint nested_patch_items (d : dict) (s : S) {struct d}
  : dict * option exn * S :=
  match d with
  | [] => ([], None, s)
  | (k, x) :: rest =>
      if condition k x then
        match patch k x s with
        | (Ok y, s1) =>
            let '(rest', e, s2) := nested_patch_items rest s1 in
            ((k, y) :: rest', e, s2)
        | (Err e, s1) => ((k, x) :: rest, Some e, s1)
        end
      else
        match nested_patch_value x s with
        | (x', None, s1) =>
            let '(rest', e, s2) := nested_patch_items rest s1 in
            ((k, x') :: rest', e, s2)
        | (x', Some e, s1) => ((k, x') :: rest, Some e, s1)
        end
  end.

Definition nested_patch_inplace (d : dict) (s : S)
    : dict * option exn * S :=
    match nested_patch_value (VDict d) s with
    | (VDict d', e, s') => (d', e, s')
    | (_, e, s') => (d, e, s')
    end.
End NestedPatch.

End vsi.

(** ** Objects, callables and the host environment *)

(** Objects that are only used through their identity ([id(x)]): receivers
    and senders of signals.  [TMethod] is a bound method, which has
    [__self__] and [__func__]. *)
Inductive target : Type :=
| TNone
| TObj (o : nat)
| TMethod (self func : nat).

(** What the program does not define itself: the expansion functions of
    [os.path], the bodies of the [settings_property] functions and of the
    signal receivers, and reading a JSON file.  A [settings_property] gets
    the settings and may change them while it runs; it is given here by its
    outcome and by the contents the container it was read from has when it
    returns.  A receiver is given by its outcome.

    Three more things are not in the repository and not in the values of
    this model.  [update_argument] is what the missing [nested_update]
    reads from an argument that is neither a mapping nor a list of
    key/value pairs: the items, or the exception it raises.
    [builtin_attribute] says whether the interpreter's classes [dict] and
    [object] give their instances a special attribute of that name
    ([__class__], [__len__], [__dict__], ...); the list depends on the
    version of Python.  [nested_object_dict] says whether the mapping
    stored under a path of keys is an [ObjectDict], as [update] builds
    them, or a plain [dict], as item assignment may store one. *)
Class Host : Type := {
  expandvars : string -> string;
  expanduser : string -> string;
  property_call : string -> dict -> outcome * dict;
  receiver_call : target -> target -> dict -> outcome;
  open_json : string -> res value;
  update_argument : value -> res dict;
  builtin_attribute : string -> bool;
  nested_object_dict : list string -> bool
}.

(** The items of a list of key/value pairs with string keys.  A pair is
    a sequence of two elements. *)
Fixpoint pairs_items (l : list value) : option dict :=
  match l with
  | [] => Some []
  | VList [VStr k; v] :: l' | VList [VExpanded k; v] :: l' =>
      match pairs_items l' with
      | Some d => Some ((k, v) :: d)
      | None => None
      end
  | _ => None
  end.

(** Modelled from the spec: [nested_update] of [vsi.tools.python] is
    missing.  [update_items arg] is the list of items that
    [nested_update(self, arg)] goes through.  The source gives it a
    mapping ([self.update(backup)]) and a list of key/value pairs
    ([self.update([(name, value)])]), as [dict.update] takes them: a
    mapping gives its items, and a list of pairs with distinct string
    keys gives these pairs, so the empty list gives no item.  Every other
    argument is left to the host. *)
Definition update_items {H : Host} (arg : value) : res dict :=
  match arg with
  | VDict d => Ok d
  | VList l =>
      match pairs_items l with
      | Some d => if nodup_keys (map fst d) then Ok d else update_argument arg
      | None => update_argument arg
      end
  | _ => update_argument arg
  end.

(** [os.environ.get(name)] *)
Fixpoint environ_get (environ : list (string * string)) (name : string)
  : option string :=
  match environ with
  | [] => None
  | (k, v) :: environ' =>
      if String.eqb k name then Some v else environ_get environ' name
  end.

(** ** [terra/core/signals.py] *)

Module Signal.

(** The value of [id(x)]; [_make_id] gives a pair for bound methods. *)
Inductive ident : Type :=
| IdNone
| Id (o : nat)
| IdPair (self func : nat).

Definition _make_id (t : target) : ident :=
  match t with
  | TNone => IdNone
  | TObj o => Id o
  | TMethod s f => IdPair s f
  end.

Definition NONE_ID : ident := _make_id TNone.

Definition ident_eqb (a b : ident) : bool :=
  match a, b with
  | IdNone, IdNone => true
  | Id x, Id y => Nat.eqb x y
  | IdPair x1 x2, IdPair y1 y2 => Nat.eqb x1 y1 && Nat.eqb x2 y2
  | _, _ => false
  end.

Definition target_eqb (a b : target) : bool :=
  match a, b with
  | TNone, TNone => true
  | TObj x, TObj y => Nat.eqb x y
  | TMethod x1 x2, TMethod y1 y2 => Nat.eqb x1 y1 && Nat.eqb x2 y2
  | _, _ => false
  end.

(** First half of a lookup key: the [dispatch_uid] or the receiver's id. *)
Inductive key_head : Type :=
| KUid (uid : string)
| KId (i : ident).

Definition lookup_key : Type := (key_head * ident)%type.

Definition key_head_eqb (a b : key_head) : bool :=
  match a, b with
  | KUid u, KUid v => String.eqb u v
  | KId i, KId j => ident_eqb i j
  | _, _ => false
  end.

Definition key_eqb (a b : lookup_key) : bool :=
  key_head_eqb (fst a) (fst b) && ident_eqb (snd a) (snd b).

(** A stored receiver: the callable itself, or a weak reference to it. *)
Inductive ref : Type :=
| Strong (r : target)
| Weak (r : target).

Inductive cache_entry : Type :=
| NO_RECEIVERS
| Cached (l : list ref).

(** The fields of a [Signal].  The lock is not represented: the calls
    are modelled one after the other.  [providing_args] is never read. *)
Record t : Type := mk {
  receivers : list (lookup_key * ref);
  use_caching : bool;
  sender_receivers_cache : list (target * cache_entry);
  _dead_receivers : bool
}.

Definition __init__ (use_caching : bool) : t :=
  {| receivers := [];
     use_caching := use_caching;
     sender_receivers_cache := [];
     _dead_receivers := false |}.

(** [weakref.ref(x)] and [weakref.WeakMethod(x)] raise [TypeError] on
    [None]. *)
Definition weakrefable (x : target) : bool :=
  match x with TNone => false | _ => true end.

(** The objects the garbage collector has reclaimed are listed in
    [collected]; a weak reference to one of them answers [None]. *)
Definition is_collected (collected : list nat) (x : target) : bool :=
  match x with
  | TNone => false
  | TObj o => existsb (Nat.eqb o) collected
  | TMethod s f => existsb (Nat.eqb s) collected || existsb (Nat.eqb f) collected
  end.

Definition is_dead_weak (collected : list nat) (r : ref) : bool :=
  match r with
  | Strong _ => false
  | Weak x => is_collected collected x
  end.

Definition truthy (uid : option string) : bool :=
  match uid with
  | None => false
  | Some u => negb (String.eqb u "")
  end.

Definition make_lookup_key (receiver sender : target)
  (dispatch_uid : option string) : lookup_key :=
  match dispatch_uid with
  | Some u =>
      if truthy dispatch_uid then (KUid u, _make_id sender)
      else (KId (_make_id receiver), _make_id sender)
  | None => (KId (_make_id receiver), _make_id sender)
  end.

Definition _clear_dead_receivers (collected : list nat) (s : t) : t :=
  if _dead_receivers s then
    {| receivers :=
         filter (fun r => negb (is_dead_weak collected (snd r))) (receivers s);
       use_caching := use_caching s;
       sender_receivers_cache := sender_receivers_cache s;
       _dead_receivers := false |}
  else s.

Definition set_receivers_clear_cache (rs : list (lookup_key * ref)) (s : t)
  : t :=
  {| receivers := rs;
     use_caching := use_caching s;
     sender_receivers_cache := [];
     _dead_receivers := _dead_receivers s |}.

Definition connect (collected : list nat) (receiver sender : target)
  (weak : bool) (dispatch_uid : option string) (s : t) : res unit * t :=
  let key := make_lookup_key receiver sender dispatch_uid in
  if weak && negb (weakrefable receiver) then
    (Err (TypeError "cannot create weak reference"), s)
  else
    let r := if weak then Weak receiver else Strong receiver in
    let s1 := _clear_dead_receivers collected s in
    let rs :=
      if existsb (fun e => key_eqb (fst e) key) (receivers s1)
      then receivers s1
      else receivers s1 ++ [(key, r)] in
    (Ok tt, set_receivers_clear_cache rs s1).

(** [del self.receivers[index]] at the first index whose key matches. *)
Fixpoint remove_first (key : lookup_key) (rs : list (lookup_key * ref))
  : bool * list (lookup_key * ref) :=
  match rs with
  | [] => (false, [])
  | e :: rs' =>
      if key_eqb (fst e) key then (true, rs')
      else let '(b, rs'') := remove_first key rs' in (b, e :: rs'')
  end.

Definition disconnect (collected : list nat) (receiver sender : target)
  (dispatch_uid : option string) (s : t) : bool * t :=
  let key := make_lookup_key receiver sender dispatch_uid in
  let s1 := _clear_dead_receivers collected s in
  let '(disconnected, rs) := remove_first key (receivers s1) in
  (disconnected, set_receivers_clear_cache rs s1).

(** [self.sender_receivers_cache.get(sender)].  With [use_caching] the
    cache is a [WeakKeyDictionary], whose [get] and [__setitem__] build
    [weakref.ref(sender)] first. *)
Fixpoint cache_lookup (sender : target) (c : list (target * cache_entry))
  : option cache_entry :=
  match c with
  | [] => None
  | (x, e) :: c' => if target_eqb x sender then Some e else cache_lookup sender c'
  end.

Definition cache_get (sender : target) (s : t) : res (option cache_entry) :=
  if use_caching s && negb (weakrefable sender) then
    Err (TypeError "cannot create weak reference")
  else Ok (cache_lookup sender (sender_receivers_cache s)).

Fixpoint cache_store (sender : target) (e : cache_entry)
  (c : list (target * cache_entry)) : list (target * cache_entry) :=
  match c with
  | [] => [(sender, e)]
  | (x, e') :: c' =>
      if target_eqb x sender then (x, e) :: c'
      else (x, e') :: cache_store sender e c'
  end.

Definition cache_set (sender : target) (e : cache_entry) (s : t) : res t :=
  if use_caching s && negb (weakrefable sender) then
    Err (TypeError "cannot create weak reference")
  else
    Ok {| receivers := receivers s;
          use_caching := use_caching s;
          sender_receivers_cache :=
            cache_store sender e (sender_receivers_cache s);
          _dead_receivers := _dead_receivers s |}.

(** The registered receivers whose sender filter is [None] or [sender]. *)
Definition qualifies (sender : target) (e : lookup_key * ref) : bool :=
  ident_eqb (snd (fst e)) NONE_ID || ident_eqb (snd (fst e)) (_make_id sender).

(** Dereference the weak references, dropping the dead ones. *)
Fixpoint non_weak_receivers (collected : list nat) (rs : list ref)
  : list target :=
  match rs with
  | [] => []
  | Strong r :: rs' => r :: non_weak_receivers collected rs'
  | Weak r :: rs' =>
      if is_collected collected r then non_weak_receivers collected rs'
      else r :: non_weak_receivers collected rs'
  end.

Definition _live_receivers (collected : list nat) (sender : target) (s : t)
  : res (list target) * t :=
  let cached :=
    if use_caching s && negb (_dead_receivers s) then cache_get sender s
    else Ok None in
  match cached with
  | Err e => (Err e, s)
  | Ok (Some NO_RECEIVERS) => (Ok [], s)
  | Ok (Some (Cached rs)) => (Ok (non_weak_receivers collected rs), s)
  | Ok None =>
      let s1 := _clear_dead_receivers collected s in
      let rs := map snd (filter (qualifies sender) (receivers s1)) in
      if use_caching s1 then
        match cache_set sender
                (match rs with [] => NO_RECEIVERS | _ => Cached rs end) s1 with
        | Err e => (Err e, s1)
        | Ok s2 => (Ok (non_weak_receivers collected rs), s2)
        end
      else (Ok (non_weak_receivers collected rs), s1)
  end.

Definition has_listeners (collected : list nat) (sender : target) (s : t)
  : res bool * t :=
  match _live_receivers collected sender s with
  | (Ok rs, s') => (Ok (match rs with [] => false | _ => true end), s')
  | (Err e, s') => (Err e, s')
  end.

(** [self._dead_receivers = True], run by the finalizer of a receiver. *)
Definition _remove_receiver (s : t) : t :=
  {| receivers := receivers s;
     use_caching := use_caching s;
     sender_receivers_cache := sender_receivers_cache s;
     _dead_receivers := true |}.

(** [os.environ.get('TERRA_UNITTEST') == "1"] *)
Definition unittest_mode (environ : list (string * string)) : bool :=
  match environ_get environ "TERRA_UNITTEST" with
  | Some v => String.eqb v "1"
  | None => false
  end.

(** The test that opens [send] and [send_robust]: [Ok true] returns the
    empty list at once.  [or] stops at the first true operand. *)
Definition no_dispatch (environ : list (string * string)) (sender : target)
  (s : t)
  : res bool :=
  match receivers s with
  | [] => Ok true
  | _ =>
      match cache_get sender s with
      | Err e => Err e
      | Ok (Some NO_RECEIVERS) => Ok true
      | Ok _ => Ok (unittest_mode environ)
      end
  end.

Section Dispatch.
Context {H : Host}.

  (** The list comprehension of [send]: the calls are made in order and
      the first exception leaves the loop.  The second component lists the
      receivers that were called. *)
Fixpoint call_all (sender : target) (named : dict) (rs : list target)
    : res (list (target * outcome)) * list target :=
    match rs with
    | [] => (Ok [], [])
    | r :: rs' =>
        match receiver_call r sender named with
        | Raises e => (Err e, [r])
        | Returns v =>
            let '(out, called) := call_all sender named rs' in
            (match out with
             | Ok l => Ok ((r, Returns v) :: l)
             | Err e => Err e
             end, r :: called)
        end
    end.

  (** The loop of [send_robust]: [except Exception] makes an exception
      the response; an exception that is not an [Exception] leaves the
      loop. *)
Fixpoint call_all_robust (sender : target) (named : dict) (rs : list target)
    : res (list (target * outcome)) * list target :=
    match rs with
    | [] => (Ok [], [])
    | r :: rs' =>
        let response := receiver_call r sender named in
        match response with
        | Raises e =>
            if is_Exception e then
              let '(out, called) := call_all_robust sender named rs' in
              (match out with
               | Ok l => Ok ((r, response) :: l)
               | Err e' => Err e'
               end, r :: called)
            else (Err e, [r])
        | Returns _ =>
            let '(out, called) := call_all_robust sender named rs' in
            (match out with
             | Ok l => Ok ((r, response) :: l)
             | Err e' => Err e'
             end, r :: called)
        end
    end.

Definition send (environ : list (string * string)) (collected : list nat)
    (sender : target) (named : dict) (s : t) : res (list (target * outcome)) * t * list target :=
    match no_dispatch environ sender s with
    | Err e => (Err e, s, [])
    | Ok true => (Ok [], s, [])
    | Ok false =>
        match _live_receivers collected sender s with
        | (Err e, s') => (Err e, s', [])
        | (Ok rs, s') =>
            let '(out, called) := call_all sender named rs in
            (out, s', called)
        end
    end.

Definition send_robust (environ : list (string * string))
    (collected : list nat)
    (sender : target) (named : dict) (s : t)
    : res (list (target * outcome)) * t * list target :=
    match no_dispatch environ sender s with
    | Err e => (Err e, s, [])
    | Ok true => (Ok [], s, [])
    | Ok false =>
        match _live_receivers collected sender s with
        | (Err e, s') => (Err e, s', [])
        | (Ok rs, s') =>
            let '(out, called) := call_all_robust sender named rs in
            (out, s', called)
        end
    end.
End Dispatch.

(** The states a signal object can be in, together with the objects the
    garbage collector has reclaimed so far: the signal is built by
    [Signal(...)] and changed by its methods and by the finalizers of its
    receivers, and a reclaimed object stays reclaimed. *)
Inductive reachable : list nat -> t -> Prop :=
| reach_init : forall uc, reachable [] (__init__ uc)
| reach_collect : forall collected collected' s,
    reachable collected s ->
    incl collected collected' ->
    reachable collected' s
| reach_connect : forall s collected receiver sender weak uid,
    reachable collected s ->
    reachable collected (snd (connect collected receiver sender weak uid s))
| reach_disconnect : forall s collected receiver sender uid,
    reachable collected s ->
    reachable collected (snd (disconnect collected receiver sender uid s))
| reach_live : forall s collected sender,
    reachable collected s ->
    reachable collected (snd (_live_receivers collected sender s))
| reach_finalize : forall s collected,
    reachable collected s -> reachable collected (_remove_receiver s).

(** What the cache of a reachable signal satisfies: it is empty without
    [use_caching], a [NO_RECEIVERS] entry means that no registered
    receiver listens to that sender, and a cached reference that is still
    alive is still registered. *)
Definition coherent (collected : list nat) (s : t) : Prop :=
  (use_caching s = false -> sender_receivers_cache s = [])
  /\ (forall sender,
        cache_lookup sender (sender_receivers_cache s) = Some NO_RECEIVERS ->
        filter (qualifies sender) (receivers s) = [])
  /\ (forall sender rs x,
        cache_lookup sender (sender_receivers_cache s) = Some (Cached rs) ->
        In x rs -> is_dead_weak collected x = false ->
        In x (map snd (receivers s))).


(** A stored reference still answers: it is strong, or its referent has
    not been reclaimed. *)
Definition alive (collected : list nat) (r : ref) : bool :=
  negb (is_dead_weak collected r).

Definition referent (r : ref) : target :=
  match r with
  | Strong x => x
  | Weak x => x
  end.

(** The receivers a [send] from [sender] is owed, read off the list of
    registered receivers alone: those registered for every sender or for
    this one, in the order of registration, the dead weak ones left out. *)
Definition registered_live (collected : list nat) (sender : target) (s : t)
  : list target :=
  non_weak_receivers collected
    (map snd (filter (qualifies sender) (receivers s))).

(** What every cache entry of a reachable signal satisfies: up to dead
    references it is the list computed from the registered receivers. *)
Definition cache_exact (collected : list nat) (s : t) : Prop :=
  forall sender,
    match cache_lookup sender (sender_receivers_cache s) with
    | Some NO_RECEIVERS => filter (qualifies sender) (receivers s) = []
    | Some (Cached l) =>
        filter (alive collected) l
        = filter (alive collected)
            (map snd (filter (qualifies sender) (receivers s)))
    | None => True
    end.

End Signal.

(** ** [terra/core/settings.py] *)

Definition ENVIRONMENT_VARIABLE : string := "TERRA_SETTINGS_FILE".

Definition filename_suffixes : list string :=
  ["_file"; "_files"; "_dir"; "_dirs"; "_path"; "_paths"].

Definition json_include_suffixes : list string := ["_json"].

(** A template: the pattern and the default values. *)
Definition template : Type := (dict * dict)%type.

(** The value [global_templates] has when the module is loaded.
    [hostname] is [platform.node()]; [DEFAULT_TCP_LOGGING_PORT] is 9020. *)
Definition initial_global_templates (hostname : string) : list template :=
  [ ([],
     [ ("logging",
        VDict
          [ ("level", VStr "ERROR");
            ("format",
             VStr "%(asctime)s (%(hostname)s:%(zone)s): %(levelname)s - %(filename)s - %(message)s");
            ("date_format", VNone);
            ("style", VStr "%");
            ("server",
             VDict [ ("hostname", VStr hostname); ("port", VInt 9020) ]) ]);
       ("executor",
        VDict [ ("type", VStr "ThreadPoolExecutor"); ("volume_map", VList []) ]);
       ("compute",
        VDict [ ("arch", VStr "terra.compute.dummy"); ("volume_map", VList []) ]);
       ("terra", VDict [ ("zone", VStr "controller") ]);
       ("status_file", VFunc "status_file" true);
       ("processing_dir", VFunc "processing_dir" true);
       ("unittest", VFunc "unittest" true);
       ("resume", VBool false) ]);
    ([ ("compute", VDict [ ("arch", VStr "terra.compute.virtualenv") ]) ],
     [ ("compute",
        VDict [ ("virtualenv_dir", VFunc "need_to_set_virtualenv_dir" true) ]) ]);
    ([ ("compute", VDict [ ("arch", VStr "virtualenv") ]) ],
     [ ("compute",
        VDict [ ("virtualenv_dir", VFunc "need_to_set_virtualenv_dir" true) ]) ])
  ].

Definition no_attribute (qualname name : string) : exn :=
  AttributeError
    (String.append "'"
       (String.append qualname
          (String.append "' object has no attribute '"
             (String.append name "'")))).

(** [name.split('.', 1)] when ['.' in name]: the text before the first
    dot and the text after it. *)
Fixpoint split_dot (name : string) : option (string * string) :=
  match name with
  | EmptyString => None
  | String c rest =>
      if Ascii.eqb c "."%char then Some (EmptyString, rest)
      else
        match split_dot rest with
        | Some (first, rest') => Some (String c first, rest')
        | None => None
        end
  end.

(** [sub in s] on strings. *)
Definition is_substring (sub s : string) : bool :=
  match String.index 0 sub s with
  | Some _ => true
  | None => false
  end.

(** [type(v).__name__] *)
Definition type_name (v : value) : string :=
  match v with
  | VNone => "NoneType"
  | VBool _ => "bool"
  | VInt _ => "int"
  | VStr _ => "str"
  | VExpanded _ => "ExpandedString"
  | VFunc _ _ => "function"
  | VList _ => "list"
  | VDict _ => "dict"
  end.

(** [name in v], as [ObjectDict.__contains__] uses it for
    [rest in self[first]], where [v] is the value stored under the path
    [p].  A mapping that is an [ObjectDict] answers with its own
    [__contains__], which splits the name at its first dot; a plain
    [dict] tests the name as it is.  A string answers with the substring
    test, a list with the membership test, and the other values are not
    iterable. *)
Fixpoint py_contains {H : Host} (p : list string) (v : value) (name : string)
  {struct v} : res bool :=
  match v with
  | VDict d =>
      match (if nested_object_dict p then split_dot name else None) with
      | None =>
          Ok (match getitem d name with Some _ => true | None => false end)
      | Some (first, rest) =>
          (fix find (l : dict) : res bool :=
             match l with
             | [] => Ok false
             | (k, x) :: l' =>
                 if String.eqb k first then py_contains (p ++ [first]) x rest
                 else find l'
             end) d
      end
  | VStr s | VExpanded s => Ok (is_substring name s)
  | VList l => Ok (existsb (fun x => py_eq x (VStr name)) l)
  | _ =>
      Err (TypeError
             (String.append "argument of type '"
                (String.append (type_name v) "' is not iterable")))
  end.

Module ObjectDict.

  (** [update] is [nested_update(self, *args, **kwargs)]. *)
Definition update (self : dict) (arg : dict) : dict :=
    vsi.nested_update self arg.

Definition __init__ (arg : dict) : dict := update [] arg.

Definition __getattr__ (self : dict) (name : string) : res value :=
    match getitem self name with
    | Some v => Ok v
    | None => Err (no_attribute "ObjectDict" name)
    end.

  (** [self.update([(name, value)])] *)
Definition __setattr__ (name : string) (v : value) (self : dict) : dict :=
    update self [(name, v)].


(** [ObjectDict.__contains__]: a name with a dot is split at the first
    dot, [self.__contains__(first) and (rest in self[first])]; a name
    without a dot is a plain key test. *)
Definition __contains__ {H : Host} (name : string) (self : dict) : res bool :=
  match split_dot name with
  | Some (first, rest) =>
      match getitem self first with
      | Some x => py_contains [first] x rest
      | None => Ok false
      end
  | None => Ok (match getitem self name with Some _ => true | None => false end)
  end.

End ObjectDict.

Module Settings.

  (** A [Settings] object: the dictionary it is, and the instance
      attribute [_backup] once [__enter__] has created it.  The copies on
      the stack are [Settings] objects themselves. *)
Local Unset Elimination Schemes.
Inductive t : Type :=
  | mk (items : dict) (_backup : option (list t)).
Local Set Elimination Schemes.

Definition items (self : t) : dict :=
    match self with mk d _ => d end.

Definition _backup (self : t) : option (list t) :=
    match self with mk _ b => b end.

Definition __init__ (arg : dict) : t := mk (ObjectDict.__init__ arg) None.

  (** The scope stack is as deep as [_backup] is long. *)
Definition depth (self : t) : nat :=
    match _backup self with
    | None => 0
    | Some l => List.length l
    end.

Section Methods.
Context {H : Host}.

    (** [Settings(arg)]: [ObjectDict.__init__] updates the new, empty
        container with the argument; when the argument cannot be read the
        constructor raises. *)
Definition new (arg : value) : res t :=
      match update_items arg with
      | Ok d => Ok (__init__ d)
      | Err e => Err e
      end.

    (** The [settings_property] step of [__getattr__]: call the function,
        store what it returns under [name].  A [KeyError] raised inside
        the [try] block is turned into an [AttributeError]. *)
Definition evaluate (name : string) (val : value) (d : dict)
      : res value * dict * list string :=
      match val with
      | VFunc f true =>
          let '(out, d') := property_call f d in
          match out with
          | Returns v => (Ok v, setitem name v d', [f])
          | Raises (KeyError _) => (Err (no_attribute "Settings" name), d', [f])
          | Raises e => (Err e, d', [f])
          end
      | _ => (Ok val, d, [])
      end.

    (** The expansion step of [__getattr__]. *)
Definition expand (name : string) (val : value) (d : dict)
      : value * dict :=
      match val with
      | VStr s =>
          let s1 := expandvars s in
          let s2 :=
            if any_endswith name filename_suffixes then expanduser s1 else s1 in
          (VExpanded s2, setitem name (VExpanded s2) d)
      | _ => (val, d)
      end.

    (** [Settings.__getattr__(self, name)].  The third component lists
        the [settings_property] functions that were called. *)
Definition __getattr__ (name : string) (self : t)
      : res value * t * list string :=
      match getitem (items self) name with
      | None => (Err (no_attribute "Settings" name), self, [])
      | Some val =>
          match evaluate name val (items self) with
          | (Err e, d, called) => (Err e, mk d (_backup self), called)
          | (Ok v, d, called) =>
              let '(v', d') := expand name v d in
              (Ok v', mk d' (_backup self), called)
          end
      end.
End Methods.

  (** [dict.__getitem__], which [Settings] does not override. *)
Definition __getitem__ (name : string) (self : t) : res value :=
    match getitem (items self) name with
    | Some v => Ok v
    | None => Err (KeyError name)
    end.

Definition __setitem__ (name : string) (v : value) (self : t) : t :=
    mk (setitem name v (items self)) (_backup self).

Definition __setattr__ (name : string) (v : value) (self : t) : t :=
    mk (ObjectDict.__setattr__ name v (items self)) (_backup self).

  (** [copy.deepcopy(self)] copies the items and the instance attributes;
      on values it is the identity. *)
Definition deepcopy (self : t) : t := self.

Definition __enter__ (self : t) : t :=
    match _backup self with
    | Some backup => mk (items self) (Some (backup ++ [deepcopy self]))
    | None => mk (items self) (Some [deepcopy self])
    end.

  (** [list.pop()]: the last element and the list without it. *)
Fixpoint pop (l : list t) : option (t * list t) :=
    match l with
    | [] => None
    | x :: l' =>
        match pop l' with
        | None => Some (x, [])
        | Some (y, l'') => Some (y, x :: l'')
        end
    end.

  (** [self.clear()], then [self._backup.pop()], then
      [self.update(backup)]: the state is returned as the statement that
      raised left it. *)
Definition __exit__ (self : t) : res unit * t :=
    let cleared : dict := [] in
    match _backup self with
    | None => (Err (no_attribute "Settings" "_backup"), mk cleared None)
    | Some l =>
        match pop l with
        | None => (Err (IndexError "pop from empty list"), mk cleared (Some l))
        | Some (backup, l') =>
            (Ok tt, mk (ObjectDict.update cleared (items backup)) (Some l'))
        end
    end.


(** [dict.__delitem__]: [del self[name]]. *)
Definition __delitem__ (name : string) (self : t) : res unit * t :=
  match getitem (items self) name with
  | Some _ => (Ok tt, mk (delitem name (items self)) (_backup self))
  | None => (Err (KeyError name), self)
  end.

Definition __len__ (self : t) : nat := List.length (items self).

(** [iter(self)]: the keys in insertion order. *)
Definition __iter__ (self : t) : list string := keys (items self).

(** The names the classes [Settings] and [ObjectDict] define, and the
    methods of [dict]. *)
Definition class_names : list string :=
  [ "__getattr__"; "__enter__"; "__exit__";
    "__init__"; "__dir__"; "__setattr__"; "__contains__"; "update";
    "clear"; "copy"; "fromkeys"; "get"; "items"; "keys"; "pop"; "popitem";
    "setdefault"; "values" ].

(** What [getattr(obj, name)] gives for a [Settings] object: what
    [__getattr__] returned, the instance attribute [_backup], or an
    attribute of the class (a bound method, for the methods). *)
Inductive attribute : Type :=
| Item (v : value)
| Backup (l : list t)
| ClassAttribute (name : string).

(** The normal attribute lookup, which is tried before [__getattr__]:
    the attributes of the class, and the one instance attribute a
    [Settings] object gets, [_backup]. *)
Definition __getattribute__ {H : Host} (name : string) (self : t)
  : option attribute :=
  if mem_string name class_names || builtin_attribute name then
    Some (ClassAttribute name)
  else if String.eqb name "_backup" then
    match _backup self with
    | Some l => Some (Backup l)
    | None => None
    end
  else None.

End Settings.

(** The signals of [signals.py] that [settings.py] sends. *)
Inductive signal_name : Type :=
| post_settings_configured
| post_settings_context.

(** The observable calls, in the order they happen: a
    [settings_property] function is called, [send] is called on a signal,
    a receiver of a signal is called. *)
Inductive event : Type :=
| EvProperty (f : string)
| EvSend (signal : signal_name) (sender : target)
| EvReceiver (signal : signal_name) (receiver : target).

(** The module-level state of [terra.core.settings] and
    [terra.core.signals]: the [settings] singleton with its [_wrapped]
    slot, [global_templates], the two signals, [os.environ], the objects
    already garbage-collected, and the calls observed so far. *)
Record World : Type := mkWorld {
  settings_id : nat;
  _wrapped : option Settings.t;
  global_templates : list template;
  sig_configured : Signal.t;
  sig_context : Signal.t;
  environ : list (string * string);
  collected : list nat;
  trace : list event
}.

Definition set_wrapped (x : option Settings.t) (w : World) : World :=
  mkWorld (settings_id w) x (global_templates w) (sig_configured w)
    (sig_context w) (environ w) (collected w) (trace w).

Definition set_templates (g : list template) (w : World) : World :=
  mkWorld (settings_id w) (_wrapped w) g (sig_configured w)
    (sig_context w) (environ w) (collected w) (trace w).

Definition set_trace (tr : list event) (w : World) : World :=
  mkWorld (settings_id w) (_wrapped w) (global_templates w) (sig_configured w)
    (sig_context w) (environ w) (collected w) tr.

Definition get_signal (n : signal_name) (w : World) : Signal.t :=
  match n with
  | post_settings_configured => sig_configured w
  | post_settings_context => sig_context w
  end.

Definition set_signal (n : signal_name) (s : Signal.t) (w : World) : World :=
  match n with
  | post_settings_configured =>
      mkWorld (settings_id w) (_wrapped w) (global_templates w) s
        (sig_context w) (environ w) (collected w) (trace w)
  | post_settings_context =>
      mkWorld (settings_id w) (_wrapped w) (global_templates w)
        (sig_configured w) s (environ w) (collected w) (trace w)
  end.

(** [list.insert(index, x)]: a negative index counts from the end, and
    the index is clipped to the list. *)
Definition list_insert {A : Type} (index : Z) (x : A) (l : list A) : list A :=
  let n := Z.of_nat (List.length l) in
  let i := if (index <? 0)%Z then (index + n)%Z else index in
  let i := if (i <? 0)%Z then 0%Z else if (n <? i)%Z then n else i in
  firstn (Z.to_nat i) l ++ x :: skipn (Z.to_nat i) l.

Fixpoint replace_last {A : Type} (x : A) (l : list A) : list A :=
  match l with
  | [] => []
  | [_] => [x]
  | y :: l' => y :: replace_last x l'
  end.

(** The class [LazyObject]: every supported method sets the object up
    first when [_wrapped] is [None].  [_setup] is abstract there. *)
Module LazyObject.
Section Methods.
Context {H : Host}.
Variable _setup : World -> res unit * World.

    (** [if self._wrapped is None: self._setup()], then the wrapped object. *)
Definition wrapped (w : World) : res Settings.t * World :=
      match _wrapped w with
      | Some c => (Ok c, w)
      | None =>
          match _setup w with
          | (Err e, w') => (Err e, w')
          | (Ok _, w') =>
              match _wrapped w' with
              | Some c => (Ok c, w')
              | None => (Err (no_attribute "NoneType" "__getitem__"), w')
              end
          end
      end.

    (** [getattr(self._wrapped, name)]: the normal lookup first, and
        [Settings.__getattr__] when it finds nothing. *)
Definition __getattr__ (name : string) (w : World)
      : res Settings.attribute * World :=
      match wrapped w with
      | (Err e, w') => (Err e, w')
      | (Ok c, w') =>
          match Settings.__getattribute__ name c with
          | Some a => (Ok a, w')
          | None =>
              let '(r, c', called) := Settings.__getattr__ name c in
              (match r with
               | Ok v => Ok (Settings.Item v)
               | Err e => Err e
               end,
               set_trace (trace w' ++ map EvProperty called)
                 (set_wrapped (Some c') w'))
          end
      end.

    (** [self._wrapped[name]] *)
Definition __getitem__ (name : string) (w : World) : res value * World :=
      match wrapped w with
      | (Err e, w') => (Err e, w')
      | (Ok c, w') => (Settings.__getitem__ name c, w')
      end.

    (** [self._wrapped[name] = value] *)
Definition __setitem__ (name : string) (v : value) (w : World)
      : res unit * World :=
      match wrapped w with
      | (Err e, w') => (Err e, w')
      | (Ok c, w') => (Ok tt, set_wrapped (Some (Settings.__setitem__ name v c)) w')
      end.

(** [del self._wrapped[name]] *)
Definition __delitem__ (name : string) (w : World) : res unit * World :=
  match wrapped w with
  | (Err e, w') => (Err e, w')
  | (Ok c, w') =>
      let '(r, c') := Settings.__delitem__ name c in
      (r, set_wrapped (Some c') w')
  end.

(** [self._wrapped.__len__()] *)
Definition __len__ (w : World) : res nat * World :=
  match wrapped w with
  | (Err e, w') => (Err e, w')
  | (Ok c, w') => (Ok (Settings.__len__ c), w')
  end.

(** [self._wrapped.__contains__(name)] *)
Definition __contains__ (name : string) (w : World) : res bool * World :=
  match wrapped w with
  | (Err e, w') => (Err e, w')
  | (Ok c, w') => (ObjectDict.__contains__ name (Settings.items c), w')
  end.

(** [iter(self._wrapped)] *)
Definition __iter__ (w : World) : res (list string) * World :=
  match wrapped w with
  | (Err e, w') => (Err e, w')
  | (Ok c, w') => (Ok (Settings.__iter__ c), w')
  end.

End Methods.
End LazyObject.

Module LazySettings.
Section Methods.
Context {H : Host}.

  (** [signal.send(sender=self, **named)] with its calls recorded. *)
Definition publish (n : signal_name) (named : dict) (w : World)
    : res (list (target * outcome)) * World :=
    let sender := TObj (settings_id w) in
    let '(out, s', called) :=
      Signal.send (environ w) (collected w) sender named (get_signal n w) in
    (out,
     set_trace (trace w ++ EvSend n sender :: map (EvReceiver n) called)
       (set_signal n s' w)).

  (** The body of the template loop of [configure]. *)
Definition apply_template (c : dict) (t : template) : dict :=
    let '(pattern, settings) := t in
    if vsi.nested_in_dict pattern c then
      let d := vsi.nested_update [] settings in
      let d := vsi.nested_update d c in
      ObjectDict.update c d
    else c.

Definition apply_templates (templates : list template) (c : dict) : dict :=
    fold_left apply_template templates c.

Definition include_condition (key : string) (v : value) : bool :=
    any_endswith key json_include_suffixes.

  (** [read_json] of [configure].  Inside it the name [settings] is the
      variable of the template loop: the defaults of the last template,
      and unbound when there is no template. *)
Definition read_json (key : string) (json_file : value)
    (st : list template * list event) : res value * (list template * list event) :=
    let '(templates, tr) := st in
    let called :=
      match json_file with
      | VFunc f true =>
          match last (map Some templates) None with
          | None => (Err (NameError "settings"), st)
          | Some (pattern, settings) =>
              let '(out, settings') := property_call f settings in
              let st' := (replace_last (pattern, settings') templates,
                          tr ++ [EvProperty f]) in
              match out with
              | Returns v => (Ok v, st')
              | Raises e => (Err e, st')
              end
          end
      | _ => (Ok json_file, st)
      end in
    match called with
    | (Err e, st') => (Err e, st')
    | (Ok (VStr path), st') | (Ok (VExpanded path), st') =>
        match open_json path with
        | Err e => (Err e, st')
        | Ok loaded =>
            match Settings.new loaded with
            | Ok c => (Ok (VDict (Settings.items c)), st')
            | Err e => (Err e, st')
            end
        end
    | (Ok _, st') => (Err (TypeError "expected str, bytes or os.PathLike object"), st')
    end.


  (** [LazySettings.configure].  The argument is what [Settings(...)]
      is built from; when [Settings(...)] raises, [_wrapped] has not been
      assigned.  The logging calls and the imports of [terra.executor]
      and [terra.compute] are left out. *)
Definition configure (arg : value) (w : World) : res unit * World :=
    match _wrapped w with
    | Some _ => (Err (ImproperlyConfigured "Settings already configured."), w)
    | None =>
        match Settings.new arg with
        | Ok c0 =>
            let c1 := apply_templates (global_templates w) (Settings.items c0) in
            let '(c2, e, (templates, tr)) :=
              vsi.nested_patch_inplace include_condition read_json c1
                (global_templates w, trace w) in
            let w1 :=
              set_trace tr
                (set_templates templates
                   (set_wrapped (Some (Settings.mk c2 (Settings._backup c0))) w)) in
            match e with
            | Some e => (Err e, w1)
            | None =>
                match publish post_settings_configured [] w1 with
                | (Err e, w2) => (Err e, w2)
                | (Ok _, w2) => (Ok tt, w2)
                end
            end
        | Err e => (Err e, w)
        end
    end.

  (** [LazySettings._setup] *)
Definition _setup (w : World) : res unit * World :=
    match environ_get (environ w) ENVIRONMENT_VARIABLE with
    | None | Some "" =>
        (Err (ImproperlyConfigured
                "Requested settings, but settings are not configured. You must either define the environment variable TERRA_SETTINGS_FILE or call settings.configure() before accessing settings."),
         w)
    | Some settings_file =>
        match open_json settings_file with
        | Err e => (Err e, w)
        | Ok arg =>
            match configure arg w with
            | (Err e, w') => (Err e, w')
            | (Ok _, w') =>
                match _wrapped w' with
                | Some c =>
                    (Ok tt,
                     set_wrapped
                       (Some (Settings.__setattr__ "config_file"
                                (VStr settings_file) c)) w')
                | None => (Err (no_attribute "NoneType" "config_file"), w')
                end
            end
        end
    end.

  (** The property [configured], also called [is_configured]. *)
Definition configured (w : World) : bool :=
    match _wrapped w with
    | Some _ => true
    | None => false
    end.

  (** [add_templates], on the list [global_templates]. *)
Definition add_templates_list (templates g : list template)
    : list template :=
    let offset := Z.of_nat (List.length g) in
    fold_left (fun g template => list_insert (- offset) template g) templates g.

Definition add_templates (templates : list template) (w : World) : World :=
    set_templates (add_templates_list templates (global_templates w)) w.

Definition __getattr__ := LazyObject.__getattr__ _setup.
Definition __getitem__ := LazyObject.__getitem__ _setup.
Definition __setitem__ := LazyObject.__setitem__ _setup.
Definition __delitem__ := LazyObject.__delitem__ _setup.
Definition __len__ := LazyObject.__len__ _setup.
Definition __contains__ := LazyObject.__contains__ _setup.
Definition __iter__ := LazyObject.__iter__ _setup.

Definition __enter__ (w : World) : res unit * World :=
    match LazyObject.wrapped _setup w with
    | (Err e, w') => (Err e, w')
    | (Ok c, w') => (Ok tt, set_wrapped (Some (Settings.__enter__ c)) w')
    end.

  (** [self._wrapped.__exit__(...)], then the signal. *)
Definition __exit__ (w : World) : res unit * World :=
    match _wrapped w with
    | None => (Err (no_attribute "NoneType" "__exit__"), w)
    | Some c =>
        match Settings.__exit__ c with
        | (Err e, c') => (Err e, set_wrapped (Some c') w)
        | (Ok return_value, c') =>
            match publish post_settings_context
                    [("post_settings_context", VBool true)]
                    (set_wrapped (Some c') w) with
            | (Err e, w') => (Err e, w')
            | (Ok _, w') => (Ok return_value, w')
            end
        end
    end.
End Methods.
End LazySettings.

(** ** Reading a key several times, paths and leaves *)

Section Reads.
Context {H : Host}.

  (** [n] attribute reads of [name], one after the other: the results,
      the container after the last read, and the [settings_property]
      functions called on the way. *)
Fixpoint read_many (name : string) (n : nat) (self : Settings.t)
    : list (res value) * Settings.t * list string :=
    match n with
    | O => ([], self, [])
    | S n' =>
        let '(r, self1, called1) := Settings.__getattr__ name self in
        let '(rs, self2, called2) := read_many name n' self1 in
        (r :: rs, self2, called1 ++ called2)
    end.
End Reads.

(** How often [send] was called on a signal. *)
Fixpoint count_sent (n : signal_name) (tr : list event) : nat :=
  match tr with
  | [] => 0
  | EvSend post_settings_configured _ :: tr' =>
      match n with
      | post_settings_configured => S (count_sent n tr')
      | _ => count_sent n tr'
      end
  | EvSend post_settings_context _ :: tr' =>
      match n with
      | post_settings_context => S (count_sent n tr')
      | _ => count_sent n tr'
      end
  | _ :: tr' => count_sent n tr'
  end.

(** The value found by following the keys of [p] through the nested
    containers. *)
Fixpoint lookup_path (d : dict) (p : list string) : option value :=
  match p with
  | [] => None
  | k :: p' =>
      match p' with
      | [] => getitem d k
      | _ =>
          match getitem d k with
          | Some (VDict d') => lookup_path d' p'
          | _ => None
          end
      end
  end.

(** A leaf is a stored value that is not a nested container. *)
Definition leaf_at (d : dict) (p : list string) (v : value) : Prop :=
  lookup_path d p = Some v /\ is_mapping v = false.

(** Nothing is set along [p]: following [p] goes through nested
    containers only and ends at a key that is absent. *)
Fixpoint path_free (d : dict) (p : list string) : bool :=
  match p with
  | [] => false
  | k :: p' =>
      match getitem d k with
      | None => true
      | Some (VDict d') =>
          match p' with
          | [] => false
          | _ => path_free d' p'
          end
      | Some _ => false
      end
  end.

(** [absorbed v w]: everything [v] holds is already in [w], so that
    merging [v] into [w] changes nothing. *)
Fixpoint absorbed (v w : value) {struct v} : Prop :=
  match v with
  | VDict i =>
      match w with
      | VDict j =>
          (fix all (i : dict) : Prop :=
             match i with
             | [] => True
             | (k, x) :: i' =>
                 match getitem j k with
                 | Some y => absorbed x y
                 | None => False
                 end /\ all i'
             end) i
      | _ => False
      end
  | _ => w = v
  end.

(** ** Statements about the program that are examined below *)


(** Applying a matching template makes every leaf of the defaults
    present and keeps every leaf of the container. *)
Definition template_fills_all (pattern defaults c : dict) : Prop :=
  vsi.nested_in_dict pattern c = true ->
  let c' := LazySettings.apply_template c (pattern, defaults) in
  (forall p v, leaf_at defaults p v -> exists v', leaf_at c' p v')
  /\ (forall p v, leaf_at c p v -> leaf_at c' p v).

(** However often the key is read, its [settings_property] function is
    called at most once, and all the reads return the value that is stored
    under the key. *)
Definition computed_at_most_once (H : Host) (name f : string)
  (c : Settings.t) : Prop :=
  getitem (Settings.items c) name = Some (VFunc f true) ->
  forall n,
    let '(rs, c', called) := read_many name (S n) c in
    List.length called <= 1
    /\ exists v,
         rs = repeat (Ok v) (S n)
         /\ getitem (Settings.items c') name = Some v.

(** [send] stops at the first receiver that raises and propagates its
    error; [send_robust] calls every receiver and records the errors. *)
Definition send_fails_fast (H : Host) (environ : list (string * string))
  (collected : list nat) (sender : target) (named : dict) (s : Signal.t)
  : Prop :=
  forall pre r post e s',
    Signal._live_receivers collected sender s = (Ok (pre ++ r :: post), s') ->
    (forall x, In x pre -> exists v, receiver_call x sender named = Returns v) ->
    receiver_call r sender named = Raises e ->
    Signal.send environ collected sender named s = (Err e, s', pre ++ [r])
    /\ Signal.send_robust environ collected sender named s
       = (Ok (map (fun x => (x, receiver_call x sender named))
                (pre ++ r :: post)),
          s', pre ++ r :: post).


(** ** Concrete hosts and states used in the examples *)

(** A host in which [need_to_set_virtualenv_dir] raises as in
    [settings.py], the other properties return strings, the receiver
    with id 7 raises, no file exists, and the two expansions change every
    string they are given.  An argument of [update] that is neither a
    mapping nor a list of pairs is treated as [dict.update] treats it:
    the empty string has no items, a scalar is not iterable.  The special
    attributes are those of Python 3.8, and nested mappings are
    [ObjectDict]s. *)
Definition example_host : Host :=
  {| expandvars := fun s => String.append s "+env";
     expanduser := fun s => String.append "/home/user" s;
     property_call := fun f d =>
       if String.eqb f "need_to_set_virtualenv_dir" then
         (Raises (ImproperlyConfigured
                    "You are using the virtualenv compute, and did not set settings.compute.virtualenv_dir in your config file."),
          d)
       else if String.eqb f "unittest" then (Returns (VBool false), d)
       else (Returns (VStr "~/work"), d);
     receiver_call := fun r sender named =>
       match r with
       | TObj 7 => Raises (OtherError "receiver failed")
       | _ => Returns VNone
       end;
     open_json := fun path => Err (FileNotFoundError path);
     update_argument := fun arg =>
       match arg with
       | VStr "" | VExpanded "" => Ok []
       | VStr _ | VExpanded _ | VList _ | VDict _ =>
           Err (ValueError
                  "dictionary update sequence element #0 has length 1; 2 is required")
       | _ =>
           Err (TypeError
                  (String.append "'"
                     (String.append (type_name arg)
                        "' object is not iterable")))
       end;
     builtin_attribute := fun name =>
       mem_string name
         [ "__class__"; "__dict__"; "__doc__"; "__module__"; "__weakref__";
           "__delattr__"; "__delitem__"; "__eq__"; "__format__"; "__ge__";
           "__getattribute__"; "__getitem__"; "__gt__"; "__hash__";
           "__init_subclass__"; "__iter__"; "__le__"; "__len__"; "__lt__";
           "__ne__"; "__new__"; "__reduce__"; "__reduce_ex__"; "__repr__";
           "__reversed__"; "__setitem__"; "__sizeof__"; "__str__";
           "__subclasshook__" ];
     nested_object_dict := fun p => true |}.

(** The same host, except that the receiver with id 7 calls
    [sys.exit(1)]. *)
Definition example_exit_host : Host :=
  {| expandvars := @expandvars example_host;
     expanduser := @expanduser example_host;
     property_call := @property_call example_host;
     receiver_call := fun r sender named =>
       match r with
       | TObj 7 => Raises (SystemExit "1")
       | _ => Returns VNone
       end;
     open_json := @open_json example_host;
     update_argument := @update_argument example_host;
     builtin_attribute := @builtin_attribute example_host;
     nested_object_dict := @nested_object_dict example_host |}.

(** The same host, except that every [settings_property] function
    returns itself. *)
Definition example_self_host : Host :=
  {| expandvars := @expandvars example_host;
     expanduser := @expanduser example_host;
     property_call := fun f d => (Returns (VFunc f true), d);
     receiver_call := @receiver_call example_host;
     open_json := @open_json example_host;
     update_argument := @update_argument example_host;
     builtin_attribute := @builtin_attribute example_host;
     nested_object_dict := @nested_object_dict example_host |}.

(** The same host with one settings file on disk. *)
Definition example_file_host : Host :=
  {| expandvars := @expandvars example_host;
     expanduser := @expanduser example_host;
     property_call := @property_call example_host;
     receiver_call := @receiver_call example_host;
     open_json := fun path =>
       if String.eqb path "/etc/terra.json"
       then Ok (VDict [ ("logging", VDict [ ("level", VStr "DEBUG") ]);
                        ("config_file", VStr "elsewhere") ])
       else Err (FileNotFoundError path);
     update_argument := @update_argument example_host;
     builtin_attribute := @builtin_attribute example_host;
     nested_object_dict := @nested_object_dict example_host |}.

Definition example_world : World :=
  {| settings_id := 1;
     _wrapped := None;
     global_templates := initial_global_templates "node";
     sig_configured := Signal.__init__ false;
     sig_context := Signal.__init__ false;
     environ := [];
     collected := [];
     trace := [] |}.

(** A container holding a [settings_property], a raw path string and a
    plain value; no scope has been entered. *)
Definition example_container : Settings.t :=
  Settings.mk
    [ ("unittest", VFunc "unittest" true);
      ("data_dir", VStr "~/data");
      ("resume", VBool true) ]
    None.

(** The unconfigured world with [TERRA_SETTINGS_FILE] set. *)
Definition example_env_world : World :=
  {| settings_id := 1;
     _wrapped := None;
     global_templates := initial_global_templates "node";
     sig_configured := Signal.__init__ false;
     sig_context := Signal.__init__ false;
     environ := [("TERRA_SETTINGS_FILE", "/etc/terra.json")];
     collected := [];
     trace := [] |}.

Definition example_configured : World :=
  set_wrapped (Some example_container) example_world.

(** A signal with the receivers 5, 7 and 9, all strong and listening to
    every sender. *)
Definition example_signal : Signal.t :=
  snd (Signal.connect [] (TObj 9) TNone false None
         (snd (Signal.connect [] (TObj 7) TNone false None
                 (snd (Signal.connect [] (TObj 5) TNone false None
                         (Signal.__init__ false)))))).




(** What a user might pass to [configure], and the first of the global
    templates (its pattern is empty, so it always matches). *)
Definition example_user_settings : dict :=
  [ ("logging", VDict [ ("level", VStr "DEBUG") ]) ].

Definition example_global_defaults : template :=
  hd ([], []) (initial_global_templates "node").

Definition example_t1 : template := ([], [("a", VInt 1)]).
Definition example_t2 : template := ([], [("a", VInt 2)]).

(* ===================================================================== *)
(** * Part II: properties *)
(* ===================================================================== *)

Unset Implicit Arguments.

(** ** Dictionaries *)

Lemma getitem_setitem_same : forall d k v, getitem (setitem k v d) k = Some v.
Proof.
  induction d as [|[k' v'] d IH]; intros k v; simpl.
  - now rewrite String.eqb_refl.
  - destruct (String.eqb k' k) eqn:E; simpl; rewrite E; auto.
Qed.

Lemma getitem_setitem_other :
  forall d k k' v, k <> k' -> getitem (setitem k v d) k' = getitem d k'.
Proof.
  induction d as [|[k0 v0] d IH]; intros k k' v Hne; simpl.
  - destruct (String.eqb k k') eqn:E; auto.
    apply String.eqb_eq in E. contradiction.
  - destruct (String.eqb k0 k) eqn:E; simpl.
    + apply String.eqb_eq in E. subst k0.
      destruct (String.eqb k k') eqn:E'; auto.
      apply String.eqb_eq in E'. contradiction.
    + destruct (String.eqb k0 k'); auto.
Qed.

(** ** [add_templates] *)

Lemma list_insert_zero :
  forall (A : Type) (x : A) (l : list A), list_insert (- 0) x l = x :: l.
Proof.
  intros A x l. unfold list_insert. simpl.
  destruct (Z.of_nat (List.length l) <? 0)%Z eqn:E.
  - apply Z.ltb_lt in E. lia.
  - reflexivity.
Qed.

Lemma list_insert_before_tail :
  forall (A : Type) (x : A) (pre g : list A),
    g <> [] ->
    list_insert (- Z.of_nat (List.length g)) x (pre ++ g) = pre ++ x :: g.
Proof.
  intros A x pre g Hg. unfold list_insert.
  assert (Hlen : (0 < List.length g)%nat).
  { destruct g; [contradiction | simpl; lia]. }
  rewrite length_app.
  replace (- Z.of_nat (List.length g) <? 0)%Z with true
    by (symmetry; apply Z.ltb_lt; lia).
  replace (- Z.of_nat (List.length g)
           + Z.of_nat (List.length pre + List.length g))%Z
    with (Z.of_nat (List.length pre)) by lia.
  replace (Z.of_nat (List.length pre) <? 0)%Z with false
    by (symmetry; apply Z.ltb_ge; lia).
  replace (Z.of_nat (List.length pre + List.length g)
           <? Z.of_nat (List.length pre))%Z with false
    by (symmetry; apply Z.ltb_ge; lia).
  rewrite Nat2Z.id.
  rewrite firstn_app, skipn_app, Nat.sub_diag, firstn_all, skipn_all.
  simpl. now rewrite app_nil_r.
Qed.

Lemma add_templates_fold :
  forall (ts pre g : list template),
    g <> [] ->
    fold_left
      (fun g0 t => list_insert (- Z.of_nat (List.length g)) t g0) ts (pre ++ g)
    = pre ++ ts ++ g.
Proof.
  induction ts as [|t ts IH]; intros pre g Hg; simpl.
  - reflexivity.
  - rewrite list_insert_before_tail by assumption.
    change (pre ++ t :: g) with (pre ++ [t] ++ g).
    rewrite app_assoc. rewrite IH by assumption.
    now rewrite <- app_assoc.
Qed.

(** With a registry that is not empty the new templates come first, in
    the order given, and the registry follows unchanged. *)
Lemma add_templates_prepends :
  forall templates g,
    g <> [] ->
    LazySettings.add_templates_list templates g = templates ++ g.
Proof.
  intros templates g Hg. unfold LazySettings.add_templates_list.
  exact (add_templates_fold templates [] g Hg).
Qed.

Lemma add_templates_fold_empty :
  forall (ts acc : list template),
    fold_left (fun g0 t => list_insert (- 0) t g0) ts acc = rev ts ++ acc.
Proof.
  induction ts as [|t ts IH]; intros acc; simpl.
  - reflexivity.
  - rewrite list_insert_zero. rewrite IH. now rewrite <- app_assoc.
Qed.

Lemma add_templates_empty_registry :
  forall templates, LazySettings.add_templates_list templates [] = rev templates.
Proof.
  intros templates. unfold LazySettings.add_templates_list.
  change (Z.of_nat (List.length (@nil template))) with 0%Z.
  rewrite (add_templates_fold_empty templates []). apply app_nil_r.
Qed.

(** C8: with an empty registry [add_templates] puts two new templates in
    the reverse of the order given: the second one is considered first. *)
Theorem add_templates_reverses_on_empty_registry :
  global_templates
    (LazySettings.add_templates [example_t1; example_t2]
       (set_templates [] example_world))
  = [example_t2; example_t1].
Proof. reflexivity. Qed.

(** ** Scope exit without a scope *)

Lemma pop_nil_iff : forall l, Settings.pop l = None <-> l = [].
Proof.
  intros l; split.
  - destruct l as [|x l]; [reflexivity|]. simpl.
    destruct (Settings.pop l) as [[y l'']|]; discriminate.
  - intros ->. reflexivity.
Qed.


(** C10: leaving a scope that was never entered raises, and the
    container has been emptied by then: the failed exit leaves the
    wrapper with an empty container. *)
Theorem exit_without_scope_clears :
  forall (H : Host) (w : World) (c : Settings.t),
    _wrapped w = Some c ->
    Settings.depth c = 0 ->
    exists e c',
      Settings.__exit__ c = (Err e, c')
      /\ Settings.items c' = []
      /\ LazySettings.__exit__ w = (Err e, set_wrapped (Some c') w).
Proof.
  intros H w c Hw Hdepth.
  unfold LazySettings.__exit__. rewrite Hw.
  destruct c as [d [l|]]; unfold Settings.depth in Hdepth; simpl in Hdepth.
  - destruct l as [|x l]; [|discriminate].
    exists (IndexError "pop from empty list"), (Settings.mk [] (Some [])).
    repeat split.
  - exists (no_attribute "Settings" "_backup"), (Settings.mk [] None).
    repeat split.
Qed.

Lemma exit_without_scope_clears_witness :
  exists e c',
    Settings.__exit__ example_container = (Err e, c')
    /\ Settings.items c' = []
    /\ @LazySettings.__exit__ example_host example_configured
       = (Err e, set_wrapped (Some c') example_configured).
Proof.
  apply (exit_without_scope_clears example_host example_configured
           example_container); reflexivity.
Defined.

(** ** Reading through the wrapper and through the container *)

Lemma settings_getattr_expanded :
  forall (H : Host) (name s : string) (c : Settings.t),
    getitem (Settings.items c) name = Some (VExpanded s) ->
    Settings.__getattr__ name c = (Ok (VExpanded s), c, []).
Proof.
  intros H name s [d b] Hget. unfold Settings.__getattr__.
  simpl in *. now rewrite Hget.
Qed.

Lemma read_many_stable :
  forall (H : Host) (name : string) (c : Settings.t) (v : value) (n : nat),
    Settings.__getattr__ name c = (Ok v, c, []) ->
    read_many name n c = (repeat (Ok v) n, c, []).
Proof.
  intros H name c v n Hread.
  induction n as [|n IH]; simpl.
  - reflexivity.
  - rewrite Hread, IH. reflexivity.
Qed.

(** C9: item access on the configured wrapper returns what is stored and
    changes nothing: a [settings_property] function comes back uncalled
    and a string comes back unexpanded.  Attribute access is what calls
    the function and expands the string; it does so for the names that
    reach [__getattr__], and for a name that the normal lookup finds (a
    method of the class, [_backup]) it returns that attribute and
    evaluates nothing either. *)
Theorem item_access_is_raw :
  forall (H : Host) (w : World) (c : Settings.t) (name : string),
    _wrapped w = Some c ->
    LazySettings.__getitem__ name w
    = (match getitem (Settings.items c) name with
       | Some v => Ok v
       | None => Err (KeyError name)
       end, w)
    /\ (forall f,
          getitem (Settings.items c) name = Some (VFunc f true) ->
          fst (LazySettings.__getitem__ name w) = Ok (VFunc f true)
          /\ (Settings.__getattribute__ name c = None ->
              trace (snd (LazySettings.__getattr__ name w))
              = trace w ++ [EvProperty f]))
    /\ (forall s,
          getitem (Settings.items c) name = Some (VStr s) ->
          fst (LazySettings.__getitem__ name w) = Ok (VStr s)
          /\ (Settings.__getattribute__ name c = None ->
              fst (LazySettings.__getattr__ name w)
              = Ok (Settings.Item
                      (VExpanded
                         (if any_endswith name filename_suffixes
                          then expanduser (expandvars s) else expandvars s)))))
    /\ (forall a,
          Settings.__getattribute__ name c = Some a ->
          LazySettings.__getattr__ name w = (Ok a, w)).
Proof.
  intros H w c name Hw.
  assert (Hitem : LazySettings.__getitem__ name w
                  = (match getitem (Settings.items c) name with
                     | Some v => Ok v
                     | None => Err (KeyError name)
                     end, w)).
  { unfold LazySettings.__getitem__, LazyObject.__getitem__, LazyObject.wrapped.
    rewrite Hw. reflexivity. }
  split; [exact Hitem|]. split; [|split].
  - intros f Hget. rewrite Hitem, Hget. split; [reflexivity|]. intros Hnone.
    unfold LazySettings.__getattr__, LazyObject.__getattr__, LazyObject.wrapped.
    rewrite Hw, Hnone. unfold Settings.__getattr__. rewrite Hget.
    unfold Settings.evaluate.
    destruct (property_call f (Settings.items c)) as [[v|e] d'].
    + destruct (Settings.expand name v (setitem name v d')). reflexivity.
    + destruct e; reflexivity.
  - intros s Hget. rewrite Hitem, Hget. split; [reflexivity|]. intros Hnone.
    unfold LazySettings.__getattr__, LazyObject.__getattr__, LazyObject.wrapped.
    rewrite Hw, Hnone. unfold Settings.__getattr__. rewrite Hget.
    reflexivity.
  - intros a Hfound.
    unfold LazySettings.__getattr__, LazyObject.__getattr__, LazyObject.wrapped.
    now rewrite Hw, Hfound.
Qed.

Lemma item_access_is_raw_witness :
  @LazySettings.__getitem__ example_host "unittest" example_configured
  = (Ok (VFunc "unittest" true), example_configured)
  /\ @LazySettings.__getitem__ example_host "data_dir" example_configured
     = (Ok (VStr "~/data"), example_configured)
  /\ fst (@LazySettings.__getattr__ example_host "data_dir" example_configured)
     = Ok (Settings.Item (VExpanded "/home/user~/data+env"))
  /\ @LazySettings.__getattr__ example_host "items" example_configured
     = (Ok (Settings.ClassAttribute "items"), example_configured).
Proof.
  split; [|split; [|split]].
  - exact (proj1 (item_access_is_raw example_host example_configured
                    example_container "unittest" eq_refl)).
  - exact (proj1 (item_access_is_raw example_host example_configured
                    example_container "data_dir" eq_refl)).
  - exact (proj2 (proj1 (proj2 (proj2 (item_access_is_raw example_host
                                         example_configured example_container
                                         "data_dir" eq_refl)))
                    "~/data" eq_refl) eq_refl).
  - exact (proj2 (proj2 (proj2 (item_access_is_raw example_host
                                  example_configured example_container
                                  "items" eq_refl)))
             (Settings.ClassAttribute "items") eq_refl).
Defined.

(** C7: the first attribute read of a string under a path-suffixed key
    expands it (variables, then home directory) and stores the result as
    an [ExpandedString]; reading the stored result again returns it as it
    is, so after any number of reads the expansion has been applied
    once. *)
Theorem path_string_expanded_once :
  forall (H : Host) (name s : string) (c : Settings.t) (n : nat),
    any_endswith name filename_suffixes = true ->
    getitem (Settings.items c) name = Some (VStr s) ->
    let v := VExpanded (expanduser (expandvars s)) in
    let c' :=
      Settings.mk (setitem name v (Settings.items c)) (Settings._backup c) in
    Settings.__getattr__ name c = (Ok v, c', [])
    /\ Settings.__getattr__ name c' = (Ok v, c', [])
    /\ read_many name (S n) c = (repeat (Ok v) (S n), c', []).
Proof.
  intros H name s c n Hsuffix Hget v c'.
  assert (Hfirst : Settings.__getattr__ name c = (Ok v, c', [])).
  { unfold Settings.__getattr__. rewrite Hget.
    unfold Settings.evaluate, Settings.expand.
    rewrite Hsuffix. reflexivity. }
  assert (Hagain : Settings.__getattr__ name c' = (Ok v, c', [])).
  { apply settings_getattr_expanded. simpl. apply getitem_setitem_same. }
  repeat split; try assumption.
  change (read_many name (S n) c)
    with (let '(r, self1, called1) := Settings.__getattr__ name c in
          let '(rs, self2, called2) := read_many name n self1 in
          (r :: rs, self2, called1 ++ called2)).
  rewrite Hfirst. rewrite (read_many_stable H name c' v n Hagain). reflexivity.
Qed.

Lemma path_string_expanded_once_witness :
  @read_many example_host "data_dir" 3 example_container
  = (repeat (Ok (VExpanded "/home/user~/data+env")) 3,
     Settings.mk
       (setitem "data_dir" (VExpanded "/home/user~/data+env")
          (Settings.items example_container))
       None,
     []).
Proof.
  exact (proj2 (proj2 (path_string_expanded_once example_host "data_dir"
                         "~/data" example_container 2 eq_refl eq_refl))).
Defined.

(** ** Computed values *)

Lemma expand_result_stable :
  forall (H : Host) (name : string) (v : value) (d : dict),
    (forall g, v <> VFunc g true) ->
    let '(v', d') := Settings.expand name v (setitem name v d) in
    getitem d' name = Some v'
    /\ (forall g, v' <> VFunc g true)
    /\ (forall s, v' <> VStr s).
Proof.
  intros H name v d Hv. unfold Settings.expand.
  destruct v; try (split; [apply getitem_setitem_same|split; [assumption|discriminate]]).
  split; [apply getitem_setitem_same|split; discriminate].
Qed.

Lemma settings_getattr_plain :
  forall (H : Host) (name : string) (v : value) (c : Settings.t),
    getitem (Settings.items c) name = Some v ->
    (forall g, v <> VFunc g true) ->
    (forall s, v <> VStr s) ->
    Settings.__getattr__ name c = (Ok v, c, []).
Proof.
  intros H name v [d b] Hget Hf Hs. unfold Settings.__getattr__.
  simpl in *. rewrite Hget.
  destruct v as [| | | s | | f [|] | |]; try reflexivity.
  - exfalso. exact (Hs s eq_refl).
  - exfalso. exact (Hf f eq_refl).
Qed.

(** The claim C3 fails for a function that raises
    ([need_to_set_virtualenv_dir] is called again by the second read),
    and it fails for a function that returns a [settings_property]: the
    function it returns is stored and called by the second read, so a
    function that returns itself is called by every read. *)
Lemma property_called_again :
  ~ computed_at_most_once example_host "virtualenv_dir"
      "need_to_set_virtualenv_dir"
      (Settings.mk
         [("virtualenv_dir", VFunc "need_to_set_virtualenv_dir" true)] None)
  /\ ~ computed_at_most_once example_self_host "again" "again"
        (Settings.mk [("again", VFunc "again" true)] None).
Proof.
  split; intros Hclaim; specialize (Hclaim eq_refl 1);
    vm_compute in Hclaim; destruct Hclaim as [Hlen _]; lia.
Qed.

(** C3, amended: the first attribute read of a key that holds a
    [settings_property] function calls the function once.  When it
    returns a value that is not itself a [settings_property], the value
    the read returns is stored under the key and every later read
    returns that stored value without another call.  When it returns a
    [settings_property], that function is stored and returned uncalled,
    and the next read calls it.  When it raises, the read fails (a
    [KeyError] as the [AttributeError] of a missing key) and stores
    nothing: the container is as the function left it, and when the key
    still holds the function then, the next read calls it again. *)
Theorem computed_value_cached :
  forall (H : Host) (name f : string) (c : Settings.t),
    getitem (Settings.items c) name = Some (VFunc f true) ->
    (forall v d n,
        property_call f (Settings.items c) = (Returns v, d) ->
        (forall g, v <> VFunc g true) ->
        exists v' d',
          Settings.expand name v (setitem name v d) = (v', d')
          /\ getitem d' name = Some v'
          /\ read_many name (S n) c
             = (repeat (Ok v') (S n), Settings.mk d' (Settings._backup c), [f]))
    /\ (forall g d,
          property_call f (Settings.items c) = (Returns (VFunc g true), d) ->
          let c1 :=
            Settings.mk (setitem name (VFunc g true) d) (Settings._backup c) in
          Settings.__getattr__ name c = (Ok (VFunc g true), c1, [f])
          /\ snd (Settings.__getattr__ name c1) = [g]
          /\ snd (read_many name 2 c) = [f; g])
    /\ (forall e d,
          property_call f (Settings.items c) = (Raises e, d) ->
          let c1 := Settings.mk d (Settings._backup c) in
          Settings.__getattr__ name c
          = (Err (match e with
                  | KeyError _ => no_attribute "Settings" name
                  | _ => e
                  end), c1, [f])
          /\ (getitem d name = Some (VFunc f true) ->
              snd (Settings.__getattr__ name c1) = [f]
              /\ snd (read_many name 2 c) = [f; f])).
Proof.
  intros H name f c Hget.
  assert (Hcalls : forall g (c1 : Settings.t),
             getitem (Settings.items c1) name = Some (VFunc g true) ->
             snd (Settings.__getattr__ name c1) = [g]).
  { intros g c1 Hg. unfold Settings.__getattr__. rewrite Hg.
    unfold Settings.evaluate.
    destruct (property_call g (Settings.items c1)) as [[v|e] d'].
    - destruct (Settings.expand name v (setitem name v d')). reflexivity.
    - destruct e; reflexivity. }
  assert (Htwo : forall r c1 g,
             Settings.__getattr__ name c = (r, c1, [f]) ->
             snd (Settings.__getattr__ name c1) = [g] ->
             snd (read_many name 2 c) = [f; g]).
  { intros r c1 g Hfirst Hsecond. simpl. rewrite Hfirst.
    destruct (Settings.__getattr__ name c1) as [[r2 c2] called2].
    simpl in Hsecond. subst called2. reflexivity. }
  split; [|split].
  - intros v d n Hcall Hv.
    pose proof (expand_result_stable H name v d Hv) as Hstable.
    destruct (Settings.expand name v (setitem name v d)) as [v' d'] eqn:Hexp.
    destruct Hstable as (Hstored & Hnf & Hns).
    exists v', d'. split; [reflexivity|]. split; [assumption|].
    assert (Hfirst : Settings.__getattr__ name c
                     = (Ok v', Settings.mk d' (Settings._backup c), [f])).
    { unfold Settings.__getattr__. rewrite Hget.
      unfold Settings.evaluate. rewrite Hcall. rewrite Hexp. reflexivity. }
    change (read_many name (S n) c)
      with (let '(r, self1, called1) := Settings.__getattr__ name c in
            let '(rs, self2, called2) := read_many name n self1 in
            (r :: rs, self2, called1 ++ called2)).
    rewrite Hfirst.
    rewrite (read_many_stable H name (Settings.mk d' (Settings._backup c)) v' n).
    + reflexivity.
    + apply settings_getattr_plain; assumption.
  - intros g d Hcall c1.
    assert (Hfirst : Settings.__getattr__ name c = (Ok (VFunc g true), c1, [f])).
    { unfold Settings.__getattr__. rewrite Hget.
      unfold Settings.evaluate. rewrite Hcall. reflexivity. }
    assert (Hsecond : snd (Settings.__getattr__ name c1) = [g]).
    { apply Hcalls. unfold c1. cbn [Settings.items].
      apply getitem_setitem_same. }
    split; [exact Hfirst|]. split; [exact Hsecond|].
    exact (Htwo _ c1 g Hfirst Hsecond).
  - intros e d Hcall c1.
    assert (Hfirst : Settings.__getattr__ name c
                     = (Err (match e with
                             | KeyError _ => no_attribute "Settings" name
                             | _ => e
                             end), c1, [f])).
    { unfold Settings.__getattr__. rewrite Hget.
      unfold Settings.evaluate. rewrite Hcall.
      destruct e; reflexivity. }
    split; [exact Hfirst|].
    intros Hstill.
    assert (Hsecond : snd (Settings.__getattr__ name c1) = [f])
      by (apply Hcalls; exact Hstill).
    split; [exact Hsecond|].
    exact (Htwo _ c1 f Hfirst Hsecond).
Qed.

Lemma computed_value_cached_witness :
  @read_many example_host "unittest" 3 example_container
  = (repeat (Ok (VBool false)) 3,
     Settings.mk
       (setitem "unittest" (VBool false) (Settings.items example_container))
       None,
     ["unittest"])
  /\ snd (@read_many example_self_host "again" 2
            (Settings.mk [("again", VFunc "again" true)] None))
     = ["again"; "again"]
  /\ snd (@read_many example_host "virtualenv_dir" 2
            (Settings.mk
               [("virtualenv_dir", VFunc "need_to_set_virtualenv_dir" true)]
               None))
     = ["need_to_set_virtualenv_dir"; "need_to_set_virtualenv_dir"].
Proof.
  split; [|split].
  - destruct (proj1 (computed_value_cached example_host "unittest" "unittest"
                       example_container eq_refl)
                (VBool false) (Settings.items example_container) 2 eq_refl)
      as (v' & d' & Hexp & _ & Hreads).
    + intros g. discriminate.
    + injection Hexp as <- <-. exact Hreads.
  - exact (proj2 (proj2 (proj1 (proj2 (computed_value_cached example_self_host
                                         "again" "again"
                                         (Settings.mk
                                            [("again", VFunc "again" true)]
                                            None)
                                         eq_refl))
                           "again" [("again", VFunc "again" true)] eq_refl))).
  - exact (proj2 (proj2 (proj2 (proj2 (computed_value_cached example_host
                                         "virtualenv_dir"
                                         "need_to_set_virtualenv_dir"
                                         (Settings.mk
                                            [("virtualenv_dir",
                                              VFunc "need_to_set_virtualenv_dir"
                                                true)] None)
                                         eq_refl))
                           _ _ eq_refl) eq_refl)).
Defined.

(** ** Well-formed containers and the nested merge *)

Lemma well_formed_dict :
  forall d,
    well_formed (VDict d)
    = nodup_keys (map fst d) && forallb (fun kv => well_formed (snd kv)) d.
Proof.
  intros d. simpl. f_equal.
  induction d as [|[k v] d IH]; simpl; [reflexivity|].
  now rewrite IH.
Qed.

Lemma getitem_none_iff :
  forall d k, getitem d k = None <-> mem_string k (map fst d) = false.
Proof.
  induction d as [|[k' v] d IH]; intros k; simpl.
  - tauto.
  - destruct (String.eqb k' k); simpl.
    + split; discriminate.
    + apply IH.
Qed.

Lemma setitem_absent :
  forall d k v, getitem d k = None -> setitem k v d = d ++ [(k, v)].
Proof.
  induction d as [|[k' v'] d IH]; intros k v Hnone; simpl in *.
  - reflexivity.
  - destruct (String.eqb k' k); [discriminate|].
    now rewrite IH.
Qed.

Lemma keys_setitem_present :
  forall d k v x, getitem d k = Some x -> map fst (setitem k v d) = map fst d.
Proof.
  induction d as [|[k' v'] d IH]; intros k v x Hsome; simpl in *.
  - discriminate.
  - destruct (String.eqb k' k); simpl; [reflexivity|].
    f_equal. eapply IH; eassumption.
Qed.

Lemma mem_string_app :
  forall k l m, mem_string k (l ++ m) = mem_string k l || mem_string k m.
Proof.
  induction l as [|x l IH]; intros m; simpl; [reflexivity|].
  now rewrite IH, orb_assoc.
Qed.

Lemma nodup_keys_snoc :
  forall l k,
    nodup_keys l = true -> mem_string k l = false ->
    nodup_keys (l ++ [k]) = true.
Proof.
  induction l as [|x l IH]; intros k Hnd Hmem; simpl in *.
  - reflexivity.
  - apply andb_true_iff in Hnd as [Hx Hnd].
    apply orb_false_iff in Hmem as [Hxk Hmem].
    apply andb_true_iff; split.
    + rewrite mem_string_app. simpl.
      apply negb_true_iff in Hx. rewrite Hx. simpl.
      rewrite orb_false_r.
      apply negb_true_iff. rewrite String.eqb_sym. exact Hxk.
    + now apply IH.
Qed.

Lemma wf_dict_getitem :
  forall d k x,
    wf_dict d = true -> getitem d k = Some x -> well_formed x = true.
Proof.
  unfold wf_dict. intros d k x Hwf Hget.
  rewrite well_formed_dict in Hwf. apply andb_true_iff in Hwf as [_ Hall].
  induction d as [|[k' v] d IH]; simpl in *; [discriminate|].
  apply andb_true_iff in Hall as [Hv Hall].
  destruct (String.eqb k' k).
  - now injection Hget as <-.
  - now apply IH.
Qed.

Lemma wf_dict_setitem :
  forall d k v,
    wf_dict d = true -> well_formed v = true ->
    wf_dict (setitem k v d) = true.
Proof.
  unfold wf_dict. intros d k v Hwf Hv.
  rewrite well_formed_dict in *. apply andb_true_iff in Hwf as [Hnd Hall].
  destruct (getitem d k) as [x|] eqn:Hget.
  - rewrite (keys_setitem_present d k v x Hget), Hnd. simpl.
    clear Hnd. revert Hget.
    induction d as [|[k' v'] d IH]; simpl in *; [discriminate|].
    apply andb_true_iff in Hall as [Hv' Hall].
    destruct (String.eqb k' k); simpl; intros Hget.
    + now rewrite Hv, Hall.
    + rewrite Hv'. simpl. now apply IH.
  - rewrite (setitem_absent d k v Hget).
    rewrite map_app, forallb_app. simpl.
    rewrite nodup_keys_snoc; [|assumption|now apply getitem_none_iff].
    now rewrite Hall, Hv.
Qed.

Lemma nested_update_value_dict :
  forall cur inc,
    vsi.nested_update_value cur (VDict inc)
    = VDict (vsi.nested_update
               (match cur with Some (VDict d) => d | _ => [] end) inc).
Proof.
  intros cur inc. reflexivity.
Qed.

Lemma nested_update_value_leaf :
  forall cur v, is_mapping v = false -> vsi.nested_update_value cur v = v.
Proof.
  intros cur v Hleaf. destruct v; try reflexivity. discriminate.
Qed.

(** What is stored under [k] after a merge: the merged incoming value if
    the incoming container has [k], the old value otherwise. *)
Lemma getitem_nested_update :
  forall inc d k,
    nodup_keys (map fst inc) = true ->
    getitem (vsi.nested_update d inc) k
    = match getitem inc k with
      | None => getitem d k
      | Some w => Some (vsi.nested_update_value (getitem d k) w)
      end.
Proof.
  induction inc as [|[k0 w0] inc IH]; intros d k Hnd; simpl in *.
  - reflexivity.
  - apply andb_true_iff in Hnd as [Hfresh Hnd].
    apply negb_true_iff in Hfresh.
    rewrite IH by assumption.
    destruct (String.eqb k0 k) eqn:E.
    + apply String.eqb_eq in E. subst k0.
      apply getitem_none_iff in Hfresh. rewrite Hfresh.
      apply getitem_setitem_same.
    + assert (Hne : k0 <> k) by (intros ->; now rewrite String.eqb_refl in E).
      rewrite (getitem_setitem_other d k0 k _ Hne). reflexivity.
Qed.

Lemma nested_update_fresh :
  forall inc pre,
    Forall (fun kv => vsi.nested_update_value None (snd kv) = snd kv) inc ->
    nodup_keys (map fst inc) = true ->
    (forall k, mem_string k (map fst inc) = true -> getitem pre k = None) ->
    vsi.nested_update pre inc = pre ++ inc.
Proof.
  induction inc as [|[k w] inc IH]; intros pre Hall Hnd Hfresh; simpl in *.
  - now rewrite app_nil_r.
  - inversion Hall as [|kv l Hw Hall']; subst. simpl in Hw.
    apply andb_true_iff in Hnd as [Hk Hnd]. apply negb_true_iff in Hk.
    assert (Hpre : getitem pre k = None).
    { apply Hfresh. now rewrite String.eqb_refl. }
    rewrite Hpre, Hw, (setitem_absent pre k w Hpre).
    rewrite IH; try assumption.
    + now rewrite <- app_assoc.
    + intros k' Hk'.
      apply getitem_none_iff. rewrite map_app, mem_string_app. simpl.
      rewrite orb_false_r.
      apply orb_false_iff; split.
      * apply getitem_none_iff. apply Hfresh. rewrite Hk'. apply orb_true_r.
      * destruct (String.eqb k k') eqn:E; [|reflexivity].
        apply String.eqb_eq in E. subst k'. congruence.
Qed.

Lemma nested_update_value_fresh :
  forall v, well_formed v = true -> vsi.nested_update_value None v = v.
Proof.
  induction v as [v Hatom | l _ | d IH] using value_induction; intros Hwf.
  - destruct v; try reflexivity; discriminate.
  - reflexivity.
  - rewrite nested_update_value_dict. f_equal.
    rewrite well_formed_dict in Hwf. apply andb_true_iff in Hwf as [Hnd Hall].
    rewrite (nested_update_fresh d []); try reflexivity; try assumption.
    clear Hnd. induction d as [|[k w] d IHd]; constructor.
    + simpl in *. apply andb_true_iff in Hall as [Hw _].
      inversion IH; subst. auto.
    + simpl in Hall. apply andb_true_iff in Hall as [_ Hall].
      inversion IH; subst. auto.
Qed.

(** Merging a well-formed container into an empty one copies it. *)
Lemma nested_update_nil :
  forall d, wf_dict d = true -> vsi.nested_update [] d = d.
Proof.
  intros d Hwf.
  pose proof (nested_update_value_fresh (VDict d) Hwf) as Hcopy.
  rewrite nested_update_value_dict in Hcopy. now injection Hcopy.
Qed.

Lemma nested_update_wf_aux :
  forall inc,
    Forall (fun kv =>
              well_formed (snd kv) = true ->
              forall cur,
                (forall x, cur = Some x -> well_formed x = true) ->
                well_formed (vsi.nested_update_value cur (snd kv)) = true) inc ->
    forallb (fun kv => well_formed (snd kv)) inc = true ->
    forall d, wf_dict d = true -> wf_dict (vsi.nested_update d inc) = true.
Proof.
  induction inc as [|[k w] inc IH]; intros Hall Hwf d Hd; simpl in *.
  - assumption.
  - inversion Hall as [|kv l Hw Hall']; subst. simpl in Hw.
    apply andb_true_iff in Hwf as [Hww Hwf].
    apply IH; try assumption.
    apply wf_dict_setitem; [assumption|].
    apply Hw; [assumption|].
    intros x Hx. eapply wf_dict_getitem; eassumption.
Qed.

Lemma nested_update_value_wf :
  forall v,
    well_formed v = true ->
    forall cur,
      (forall x, cur = Some x -> well_formed x = true) ->
      well_formed (vsi.nested_update_value cur v) = true.
Proof.
  induction v as [v Hatom | l _ | d IH] using value_induction;
    intros Hwf cur Hcur.
  - destruct v; try assumption; discriminate.
  - assumption.
  - rewrite nested_update_value_dict.
    rewrite well_formed_dict in Hwf. apply andb_true_iff in Hwf as [_ Hall].
    apply (nested_update_wf_aux d IH Hall).
    destruct cur as [[]|]; try reflexivity.
    now apply Hcur.
Qed.

Lemma nested_update_wf :
  forall d inc,
    wf_dict d = true -> wf_dict inc = true ->
    wf_dict (vsi.nested_update d inc) = true.
Proof.
  intros d inc Hd Hinc.
  pose proof (nested_update_value_wf (VDict inc) Hinc (Some (VDict d))) as Hwf.
  rewrite nested_update_value_dict in Hwf. apply Hwf.
  intros x Hx. now injection Hx as <-.
Qed.

(** ** Scopes *)

Lemma count_sent_app :
  forall n tr tr', count_sent n (tr ++ tr') = count_sent n tr + count_sent n tr'.
Proof.
  induction tr as [|ev tr IH]; intros tr'; simpl; [reflexivity|].
  destruct ev as [f|[] sender|sg r]; destruct n; simpl; rewrite IH; reflexivity.
Qed.

Lemma count_sent_receivers :
  forall n m called, count_sent n (map (EvReceiver m) called) = 0.
Proof.
  induction called as [|r called IH]; simpl; [reflexivity|assumption].
Qed.

Lemma publish_effect :
  forall (H : Host) (n : signal_name) (named : dict) (w : World),
    let w' := snd (LazySettings.publish n named w) in
    _wrapped w' = _wrapped w
    /\ global_templates w' = global_templates w
    /\ count_sent n (trace w') = S (count_sent n (trace w))
    /\ (forall m, m <> n -> count_sent m (trace w') = count_sent m (trace w)).
Proof.
  intros H n named w. unfold LazySettings.publish.
  destruct (Signal.send (environ w) (collected w) (TObj (settings_id w)) named
              (get_signal n w)) as [[out s'] called].
  cbn [snd]. repeat split.
  - destruct n; reflexivity.
  - destruct n; reflexivity.
  - destruct n; unfold set_trace, set_signal; cbn [trace];
      rewrite count_sent_app; cbn [count_sent];
      rewrite count_sent_receivers; lia.
  - intros m Hm.
    destruct n, m; try contradiction; unfold set_trace, set_signal;
      cbn [trace]; rewrite count_sent_app; cbn [count_sent];
      rewrite count_sent_receivers; lia.
Qed.


(** ** Templates *)

Lemma wf_dict_nodup :
  forall d, wf_dict d = true -> nodup_keys (map fst d) = true.
Proof.
  unfold wf_dict. intros d Hwf. rewrite well_formed_dict in Hwf.
  now apply andb_true_iff in Hwf as [Hnd _].
Qed.

(** The leaves of the incoming container are leaves of the merge. *)
Lemma incoming_leaves_win :
  forall p inc d v,
    wf_dict inc = true ->
    leaf_at inc p v ->
    leaf_at (vsi.nested_update d inc) p v.
Proof.
  induction p as [|k p IH]; intros inc d v Hwf [Hlook Hleaf].
  - discriminate.
  - split; [|assumption].
    destruct p as [|k2 p].
    + simpl in *.
      rewrite getitem_nested_update by now apply wf_dict_nodup.
      rewrite Hlook. now rewrite nested_update_value_leaf.
    + cbn [lookup_path] in *.
      destruct (getitem inc k) as [[| | | | | | |i1]|] eqn:Hget;
        try discriminate.
      rewrite getitem_nested_update by now apply wf_dict_nodup.
      rewrite Hget, nested_update_value_dict.
      apply IH.
      * eapply wf_dict_getitem; eassumption.
      * split; assumption.
Qed.

(** A leaf of the old container stays where the incoming container has
    nothing on its path. *)
Lemma free_leaves_stay :
  forall p d inc v,
    wf_dict inc = true ->
    leaf_at d p v ->
    path_free inc p = true ->
    leaf_at (vsi.nested_update d inc) p v.
Proof.
  induction p as [|k p IH]; intros d inc v Hwf [Hlook Hleaf] Hfree.
  - discriminate.
  - split; [|assumption].
    destruct p as [|k2 p].
    + simpl in *.
      rewrite getitem_nested_update by now apply wf_dict_nodup.
      destruct (getitem inc k) as [[]|]; try discriminate. assumption.
    + cbn [lookup_path path_free] in *.
      rewrite getitem_nested_update by now apply wf_dict_nodup.
      destruct (getitem d k) as [[| | | | | | |d1]|] eqn:Hd; try discriminate.
      destruct (getitem inc k) as [[| | | | | | |i1]|] eqn:Hget;
        try discriminate.
      * rewrite nested_update_value_dict.
        apply IH; try assumption.
        -- eapply wf_dict_getitem; eassumption.
        -- split; assumption.
      * assumption.
Qed.

Lemma apply_template_matching :
  forall pattern defaults c,
    wf_dict defaults = true ->
    vsi.nested_in_dict pattern c = true ->
    LazySettings.apply_template c (pattern, defaults)
    = vsi.nested_update c (vsi.nested_update defaults c).
Proof.
  intros pattern defaults c Hwf Hmatch.
  unfold LazySettings.apply_template. rewrite Hmatch.
  unfold ObjectDict.update. now rewrite nested_update_nil.
Qed.

(** The claim C2 fails where the container holds a plain value on the
    way to a default: with the defaults [{"a": {"b": 1}}] and the
    container [{"a": 5}] the leaf [a.b] is not there afterwards. *)
Lemma default_under_user_value_not_filled :
  ~ template_fills_all [] [("a", VDict [("b", VInt 1)])] [("a", VInt 5)].
Proof.
  intros Hclaim.
  destruct (Hclaim eq_refl) as [Hdefaults _].
  destruct (Hdefaults ["a"; "b"] (VInt 1)) as [v' [Hlook _]].
  - split; reflexivity.
  - vm_compute in Hlook. discriminate.
Qed.

(** C2, amended: when the pattern of a template is contained in the
    container, applying the template puts every leaf of the defaults
    into the container whose path is unset there, with the default's
    value, and every leaf the container had keeps its value.  (A default
    that lies at or below a key where the container holds a value of
    another shape is not put in: the container's value stays.) *)
Theorem template_fills_unset :
  forall pattern defaults c,
    wf_dict c = true ->
    wf_dict defaults = true ->
    vsi.nested_in_dict pattern c = true ->
    let c' := LazySettings.apply_template c (pattern, defaults) in
    (forall p v,
        leaf_at defaults p v -> path_free c p = true -> leaf_at c' p v)
    /\ (forall p v, leaf_at c p v -> leaf_at c' p v)
    /\ wf_dict c' = true.
Proof.
  intros pattern defaults c Hc Hd Hmatch c'.
  unfold c'. rewrite apply_template_matching by assumption.
  assert (Hmerged : wf_dict (vsi.nested_update defaults c) = true)
    by now apply nested_update_wf.
  split; [|split].
  - intros p v Hleaf Hfree.
    apply incoming_leaves_win; [assumption|].
    now apply free_leaves_stay.
  - intros p v Hleaf.
    apply incoming_leaves_win; [assumption|].
    now apply incoming_leaves_win.
  - now apply nested_update_wf.
Qed.

Lemma template_fills_unset_witness :
  leaf_at
    (LazySettings.apply_template example_user_settings example_global_defaults)
    ["logging"; "style"] (VStr "%")
  /\ leaf_at
       (LazySettings.apply_template example_user_settings
          example_global_defaults)
       ["logging"; "level"] (VStr "DEBUG").
Proof.
  destruct (template_fills_unset (fst example_global_defaults)
              (snd example_global_defaults) example_user_settings
              eq_refl eq_refl eq_refl) as (Hdefaults & Hkept & _).
  split.
  - apply Hdefaults; [split; reflexivity | reflexivity].
  - apply Hkept. split; reflexivity.
Defined.

(** ** [configure] *)




(** ** Signals: the registered receivers *)

Lemma ident_eqb_eq : forall a b, Signal.ident_eqb a b = true <-> a = b.
Proof.
  intros [|x|x1 x2] [|y|y1 y2]; simpl; split; intros E;
    try discriminate; try reflexivity.
  - apply Nat.eqb_eq in E. now subst.
  - injection E as ->. apply Nat.eqb_refl.
  - apply andb_true_iff in E as [E1 E2].
    apply Nat.eqb_eq in E1, E2. now subst.
  - injection E as -> ->. now rewrite !Nat.eqb_refl.
Qed.

Lemma key_eqb_eq : forall a b, Signal.key_eqb a b = true <-> a = b.
Proof.
  intros [[u|i] a] [[v|j] b]; unfold Signal.key_eqb; simpl; split; intros E;
    try discriminate.
  - apply andb_true_iff in E as [E1 E2].
    apply String.eqb_eq in E1. apply ident_eqb_eq in E2. now subst.
  - injection E as -> ->. rewrite String.eqb_refl. now apply ident_eqb_eq.
  - apply andb_true_iff in E as [E1 E2].
    apply ident_eqb_eq in E1, E2. now subst.
  - injection E as -> ->. apply andb_true_iff; split; now apply ident_eqb_eq.
Qed.

Lemma key_registered_iff :
  forall key (rs : list (Signal.lookup_key * Signal.ref)),
    existsb (fun e => Signal.key_eqb (fst e) key) rs = true
    <-> In key (map fst rs).
Proof.
  intros key rs. rewrite existsb_exists, in_map_iff. split.
  - intros (e & Hin & Heq). apply key_eqb_eq in Heq. now exists e.
  - intros (e & Heq & Hin). exists e. split; [assumption|].
    now apply key_eqb_eq.
Qed.

Lemma nodup_keys_filter :
  forall (f : Signal.lookup_key * Signal.ref -> bool) rs,
    NoDup (map fst rs) -> NoDup (map fst (filter f rs)).
Proof.
  intros f rs. induction rs as [|e rs IH]; simpl; intros Hnd.
  - constructor.
  - inversion Hnd as [|k l Hnotin Hnd']; subst.
    destruct (f e); simpl; [constructor|]; auto.
    intros Hin. apply Hnotin.
    apply in_map_iff in Hin as (x & Hx & Hin).
    apply filter_In in Hin as [Hin _].
    apply in_map_iff. now exists x.
Qed.

Lemma remove_first_keys :
  forall key rs,
    NoDup (map fst rs) ->
    NoDup (map fst (snd (Signal.remove_first key rs)))
    /\ incl (snd (Signal.remove_first key rs)) rs.
Proof.
  intros key rs. induction rs as [|e rs IH]; simpl; intros Hnd.
  - split; [constructor|apply incl_refl].
  - inversion Hnd as [|k l Hnotin Hnd']; subst.
    destruct (Signal.key_eqb (fst e) key); simpl.
    + split; [assumption|apply incl_tl, incl_refl].
    + destruct (IH Hnd') as [IH1 IH2].
      destruct (Signal.remove_first key rs) as [b rs'']; simpl in *.
      split.
      * constructor; [|assumption].
        intros Hin. apply Hnotin.
        apply in_map_iff in Hin as (x & Hx & Hin).
        apply in_map_iff. exists x. split; [assumption|]. now apply IH2.
      * intros x [->|Hx]; [now left|right; now apply IH2].
Qed.

Lemma clear_dead_receivers_keys :
  forall collected s,
    NoDup (map fst (Signal.receivers s)) ->
    NoDup (map fst (Signal.receivers (Signal._clear_dead_receivers collected s))).
Proof.
  intros collected s Hnd. unfold Signal._clear_dead_receivers.
  destruct (Signal._dead_receivers s); simpl; [|assumption].
  now apply nodup_keys_filter.
Qed.

Lemma clear_dead_receivers_flag :
  forall collected s,
    Signal._dead_receivers (Signal._clear_dead_receivers collected s) = false.
Proof.
  intros collected s. unfold Signal._clear_dead_receivers.
  destruct (Signal._dead_receivers s) eqn:E; simpl; [reflexivity|assumption].
Qed.

Lemma clear_dead_receivers_idle :
  forall collected s,
    Signal._dead_receivers s = false ->
    Signal._clear_dead_receivers collected s = s.
Proof.
  intros collected s E. unfold Signal._clear_dead_receivers. now rewrite E.
Qed.

Lemma live_receivers_registered :
  forall collected sender s,
    Signal.receivers (snd (Signal._live_receivers collected sender s))
    = Signal.receivers s
    \/ Signal.receivers (snd (Signal._live_receivers collected sender s))
       = Signal.receivers (Signal._clear_dead_receivers collected s).
Proof.
  intros collected sender s. unfold Signal._live_receivers.
  destruct (if Signal.use_caching s && negb (Signal._dead_receivers s)
            then Signal.cache_get sender s else Ok None) as [[[|rs]|]|e];
    simpl; auto.
  destruct (Signal.use_caching (Signal._clear_dead_receivers collected s));
    [|now right].
  unfold Signal.cache_set.
  destruct (Signal.use_caching (Signal._clear_dead_receivers collected s)
            && negb (Signal.weakrefable sender)); simpl; now right.
Qed.

Lemma reachable_keys_unique :
  forall collected s,
    Signal.reachable collected s -> NoDup (map fst (Signal.receivers s)).
Proof.
  intros collected s Hreach.
  induction Hreach as [uc | c c' s _ IH _ | s c r sender weak uid _ IH
                       | s c r sender uid _ IH | s c sender _ IH | s c _ IH].
  - constructor.
  - assumption.
  - unfold Signal.connect.
    destruct (weak && negb (Signal.weakrefable r)); simpl; [assumption|].
    pose proof (clear_dead_receivers_keys c s IH) as Hclear.
    destruct (existsb _ _) eqn:E; [assumption|].
    rewrite map_app. simpl.
    apply NoDup_app; [assumption|repeat constructor; auto|].
    intros k Hin [<-|[]].
    apply key_registered_iff in Hin. congruence.
  - unfold Signal.disconnect.
    pose proof (clear_dead_receivers_keys c s IH) as Hclear.
    pose proof (remove_first_keys (Signal.make_lookup_key r sender uid) _ Hclear)
      as [Hnd _].
    destruct (Signal.remove_first _ _) as [b rs]. exact Hnd.
  - destruct (live_receivers_registered c sender s) as [-> | ->];
      [assumption|now apply clear_dead_receivers_keys].
  - assumption.
Qed.

Lemma connect_registers_key :
  forall collected receiver sender weak uid s,
    fst (Signal.connect collected receiver sender weak uid s) = Ok tt ->
    let s1 := snd (Signal.connect collected receiver sender weak uid s) in
    Signal._dead_receivers s1 = false
    /\ In (Signal.make_lookup_key receiver sender uid)
         (map fst (Signal.receivers s1)).
Proof.
  intros collected receiver sender weak uid s. unfold Signal.connect.
  destruct (weak && negb (Signal.weakrefable receiver)); simpl;
    [discriminate|intros _].
  split; [apply clear_dead_receivers_flag|].
  destruct (existsb _ _) eqn:E.
  - now apply key_registered_iff.
  - rewrite map_app. apply in_or_app. right. now left.
Qed.

Lemma connect_same_key_is_noop :
  forall collected receiver sender weak uid s,
    Signal._dead_receivers s = false ->
    In (Signal.make_lookup_key receiver sender uid)
      (map fst (Signal.receivers s)) ->
    Signal.receivers (snd (Signal.connect collected receiver sender weak uid s))
    = Signal.receivers s
    /\ (Signal.sender_receivers_cache s = [] ->
        snd (Signal.connect collected receiver sender weak uid s) = s).
Proof.
  intros collected receiver sender weak uid s Hflag Hin. unfold Signal.connect.
  destruct (weak && negb (Signal.weakrefable receiver)); simpl; [auto|].
  rewrite clear_dead_receivers_idle by assumption.
  apply key_registered_iff in Hin. rewrite Hin.
  split; [reflexivity|].
  intros Hcache. destruct s; simpl in *. now subst.
Qed.

(** C6: in every state a signal can reach, no two registered entries
    have the same lookup key.  A second [connect] with the same arguments
    changes nothing, so the number of entries is the same after two
    calls as after one; the same holds for any later [connect] whose
    lookup key is the one of an earlier successful [connect] (the same
    receiver and sender, or the same [dispatch_uid] and sender). *)
Theorem connect_keeps_keys_unique :
  (forall collected s,
      Signal.reachable collected s -> NoDup (map fst (Signal.receivers s)))
  /\ (forall collected receiver sender weak uid s,
        let s1 := snd (Signal.connect collected receiver sender weak uid s) in
        let s2 := snd (Signal.connect collected receiver sender weak uid s1) in
        s2 = s1
        /\ List.length (Signal.receivers s2) = List.length (Signal.receivers s1))
  /\ (forall collected r1 r2 sender1 sender2 weak1 weak2 uid1 uid2 s,
        fst (Signal.connect collected r1 sender1 weak1 uid1 s) = Ok tt ->
        Signal.make_lookup_key r2 sender2 uid2
        = Signal.make_lookup_key r1 sender1 uid1 ->
        let s1 := snd (Signal.connect collected r1 sender1 weak1 uid1 s) in
        let s2 := snd (Signal.connect collected r2 sender2 weak2 uid2 s1) in
        Signal.receivers s2 = Signal.receivers s1).
Proof.
  split; [exact reachable_keys_unique|]. split.
  - intros collected receiver sender weak uid s s1 s2.
    assert (Heq : s2 = s1); [|now rewrite Heq].
    unfold s2.
    destruct (fst (Signal.connect collected receiver sender weak uid s))
      as [[]|e] eqn:Hfirst.
    + destruct (connect_registers_key collected receiver sender weak uid s Hfirst)
        as [Hflag Hin]. fold s1 in Hflag, Hin.
      apply connect_same_key_is_noop; try assumption.
      unfold s1, Signal.connect.
      destruct (weak && negb (Signal.weakrefable receiver)) eqn:E; [|reflexivity].
      unfold Signal.connect in Hfirst. rewrite E in Hfirst. discriminate.
    + unfold s1 in *. unfold Signal.connect in *.
      destruct (weak && negb (Signal.weakrefable receiver)) eqn:E;
        simpl in *; [|discriminate].
      reflexivity.
  - intros collected r1 r2 sender1 sender2 weak1 weak2 uid1 uid2 s Hfirst Hkey
      s1 s2.
    destruct (connect_registers_key collected r1 sender1 weak1 uid1 s Hfirst)
      as [Hflag Hin]. fold s1 in Hflag, Hin.
    rewrite <- Hkey in Hin.
    now apply connect_same_key_is_noop.
Qed.

Lemma example_signal_reachable : Signal.reachable [] example_signal.
Proof.
  unfold example_signal.
  repeat apply Signal.reach_connect. apply Signal.reach_init.
Qed.

Lemma connect_keeps_keys_unique_witness :
  NoDup (map fst (Signal.receivers example_signal))
  /\ Signal.receivers
       (snd (Signal.connect [] (TObj 6) TNone true (Some "logger")
               (snd (Signal.connect [] (TObj 5) TNone false (Some "logger")
                       example_signal))))
     = Signal.receivers
         (snd (Signal.connect [] (TObj 5) TNone false (Some "logger")
                 example_signal)).
Proof.
  split.
  - apply (proj1 connect_keeps_keys_unique []).
    exact example_signal_reachable.
  - apply (proj2 (proj2 connect_keeps_keys_unique)); reflexivity.
Defined.

(** ** Signals: the cache and the dispatch *)

Lemma target_eqb_eq : forall a b, Signal.target_eqb a b = true <-> a = b.
Proof.
  intros [|x|x1 x2] [|y|y1 y2]; simpl; split; intros E;
    try discriminate; try reflexivity.
  - apply Nat.eqb_eq in E. now subst.
  - injection E as ->. apply Nat.eqb_refl.
  - apply andb_true_iff in E as [E1 E2].
    apply Nat.eqb_eq in E1, E2. now subst.
  - injection E as -> ->. now rewrite !Nat.eqb_refl.
Qed.

Lemma cache_lookup_store :
  forall sender sender' e c,
    Signal.cache_lookup sender' (Signal.cache_store sender e c)
    = if Signal.target_eqb sender sender' then Some e
      else Signal.cache_lookup sender' c.
Proof.
  intros sender sender' e c.
  induction c as [|[x e'] c IH]; simpl.
  - destruct (Signal.target_eqb sender sender'); reflexivity.
  - destruct (Signal.target_eqb x sender) eqn:Exs; simpl.
    + apply target_eqb_eq in Exs. subst x.
      destruct (Signal.target_eqb sender sender'); reflexivity.
    + rewrite IH.
      destruct (Signal.target_eqb x sender') eqn:Exs'; [|reflexivity].
      destruct (Signal.target_eqb sender sender') eqn:E2; [|reflexivity].
      apply target_eqb_eq in Exs', E2. subst.
      assert (Hrefl : Signal.target_eqb sender' sender' = true)
        by now apply target_eqb_eq.
      congruence.
Qed.

Lemma is_collected_mono :
  forall c c' x,
    incl c c' ->
    Signal.is_collected c x = true -> Signal.is_collected c' x = true.
Proof.
  intros c c' x Hincl.
  assert (Hmem : forall o, existsb (Nat.eqb o) c = true ->
                           existsb (Nat.eqb o) c' = true).
  { intros o Ho. apply existsb_exists in Ho as (y & Hy & Hoy).
    apply existsb_exists. exists y. split; [now apply Hincl|assumption]. }
  destruct x as [|o|s f]; simpl; [trivial|apply Hmem|].
  intros Hor. apply orb_true_iff in Hor as [Hs|Hf]; apply orb_true_iff;
    [left|right]; now apply Hmem.
Qed.

Lemma is_dead_weak_mono :
  forall c c' r,
    incl c c' ->
    Signal.is_dead_weak c' r = false -> Signal.is_dead_weak c r = false.
Proof.
  intros c c' [x|x] Hincl; simpl; [trivial|].
  intros Halive. destruct (Signal.is_collected c x) eqn:E; [|reflexivity].
  apply (is_collected_mono c c' x Hincl) in E. congruence.
Qed.

Lemma non_weak_receivers_in :
  forall c rs r,
    In r (Signal.non_weak_receivers c rs) ->
    exists x, In x rs /\ Signal.is_dead_weak c x = false.
Proof.
  intros c rs r. induction rs as [|[x|x] rs IH]; simpl; intros Hin.
  - contradiction.
  - exists (Signal.Strong x). split; [now left|reflexivity].
  - destruct (Signal.is_collected c x) eqn:E.
    + destruct (IH Hin) as (y & Hy & Hal). exists y. split; [now right|assumption].
    + exists (Signal.Weak x). split; [now left|assumption].
Qed.

Lemma clear_dead_receivers_fields :
  forall c s,
    Signal.use_caching (Signal._clear_dead_receivers c s) = Signal.use_caching s
    /\ Signal.sender_receivers_cache (Signal._clear_dead_receivers c s)
       = Signal.sender_receivers_cache s
    /\ (forall e,
          In e (Signal.receivers (Signal._clear_dead_receivers c s)) ->
          In e (Signal.receivers s))
    /\ (forall e,
          In e (Signal.receivers s) ->
          Signal.is_dead_weak c (snd e) = false ->
          In e (Signal.receivers (Signal._clear_dead_receivers c s))).
Proof.
  intros c s. unfold Signal._clear_dead_receivers.
  destruct (Signal._dead_receivers s); simpl; repeat split; auto.
  - intros e He. now apply filter_In in He.
  - intros e He Halive. apply filter_In. split; [assumption|].
    now rewrite Halive.
Qed.

Lemma coherent_clear :
  forall c s,
    Signal.coherent c s -> Signal.coherent c (Signal._clear_dead_receivers c s).
Proof.
  intros c s (H1 & H2 & H3).
  destruct (clear_dead_receivers_fields c s) as (Huc & Hcache & Hsub & Hkeep).
  unfold Signal.coherent. rewrite Huc, Hcache. repeat split.
  - assumption.
  - intros sender Hlook. specialize (H2 sender Hlook).
    destruct (filter (Signal.qualifies sender)
                (Signal.receivers (Signal._clear_dead_receivers c s)))
      as [|e l] eqn:E; [reflexivity|].
    assert (He : In e (filter (Signal.qualifies sender) (Signal.receivers s))).
    { assert (He' : In e (e :: l)) by now left.
      rewrite <- E in He'. apply filter_In in He' as [He' Hq].
      apply filter_In. split; [now apply Hsub|assumption]. }
    rewrite H2 in He. contradiction.
  - intros sender rs x Hlook Hin Halive.
    specialize (H3 sender rs x Hlook Hin Halive).
    apply in_map_iff in H3 as (e & <- & He).
    apply in_map_iff. exists e. split; [reflexivity|]. now apply Hkeep.
Qed.

Lemma coherent_empty_cache :
  forall c (s : Signal.t),
    Signal.sender_receivers_cache s = [] -> Signal.coherent c s.
Proof.
  intros c s Hcache. unfold Signal.coherent. rewrite Hcache.
  repeat split; simpl; intros; try discriminate.
Qed.

Lemma reachable_coherent :
  forall c s, Signal.reachable c s -> Signal.coherent c s.
Proof.
  intros c s Hreach.
  induction Hreach as [uc | c c' s _ IH Hincl | s c r sender weak uid _ IH
                       | s c r sender uid _ IH | s c sender _ IH | s c _ IH].
  - now apply coherent_empty_cache.
  - destruct IH as (H1 & H2 & H3). repeat split; try assumption.
    intros sender rs x Hlook Hin Halive.
    apply (H3 sender rs x Hlook Hin).
    now apply (is_dead_weak_mono c c').
  - unfold Signal.connect.
    destruct (weak && negb (Signal.weakrefable r)); simpl; [assumption|].
    now apply coherent_empty_cache.
  - unfold Signal.disconnect.
    destruct (Signal.remove_first _ _) as [b rs].
    now apply coherent_empty_cache.
  - unfold Signal._live_receivers.
    destruct (if Signal.use_caching s && negb (Signal._dead_receivers s)
              then Signal.cache_get sender s else Ok None) as [[[|rs]|]|e];
      simpl; try assumption.
    pose proof (coherent_clear c s IH) as Hclear.
    destruct (Signal.use_caching (Signal._clear_dead_receivers c s)) eqn:Huc;
      [|assumption].
    unfold Signal.cache_set. rewrite Huc.
    destruct (true && negb (Signal.weakrefable sender)); simpl; [assumption|].
    destruct Hclear as (H1 & H2 & H3).
    unfold Signal.coherent; simpl. repeat split.
    + intros Hfalse. congruence.
    + intros sender' Hlook. rewrite cache_lookup_store in Hlook.
      destruct (Signal.target_eqb sender sender') eqn:E; [|now apply H2].
      apply target_eqb_eq in E. subst sender'.
      destruct (filter (Signal.qualifies sender)
                  (Signal.receivers (Signal._clear_dead_receivers c s)));
        [reflexivity|discriminate].
    + intros sender' rs x Hlook Hin Halive. rewrite cache_lookup_store in Hlook.
      destruct (Signal.target_eqb sender sender') eqn:E;
        [|now apply (H3 sender' rs x)].
      apply target_eqb_eq in E. subst sender'.
      destruct (map snd (filter (Signal.qualifies sender)
                           (Signal.receivers (Signal._clear_dead_receivers c s))))
        as [|y l] eqn:Emap; [discriminate|].
      injection Hlook as <-. rewrite <- Emap in Hin.
      apply in_map_iff in Hin as (e & <- & He).
      apply filter_In in He as [He _].
      apply in_map_iff. now exists e.
  - destruct IH as (H1 & H2 & H3). repeat split; assumption.
Qed.

(** When [_live_receivers] finds a receiver, the signal has registered
    receivers and the cache does not say [NO_RECEIVERS] for the sender:
    the test that opens [send] only depends on the unit-test flag. *)
Lemma live_receivers_source :
  forall c sender s rs s' r,
    Signal.coherent c s ->
    Signal._live_receivers c sender s = (Ok rs, s') ->
    In r rs ->
    (exists e, In e (Signal.receivers s))
    /\ exists o, Signal.cache_get sender s = Ok o /\ o <> Some Signal.NO_RECEIVERS.
Proof.
  intros c sender s rs s' r (H1 & H2 & H3) Hlive Hin.
  unfold Signal._live_receivers in Hlive.
  destruct (clear_dead_receivers_fields c s) as (Huc & _ & Hsub & _).
  destruct (if Signal.use_caching s && negb (Signal._dead_receivers s)
            then Signal.cache_get sender s else Ok None)
    as [[[|crs]|]|e] eqn:Hcached.
  - injection Hlive as <- _. contradiction.
  - injection Hlive as <- _.
    destruct (Signal.use_caching s && negb (Signal._dead_receivers s));
      [|discriminate].
    split.
    + apply non_weak_receivers_in in Hin as (x & Hx & Halive).
      unfold Signal.cache_get in Hcached.
      destruct (Signal.use_caching s && negb (Signal.weakrefable sender));
        [discriminate|].
      injection Hcached as Hlook.
      specialize (H3 sender crs x Hlook Hx Halive).
      apply in_map_iff in H3 as (e & _ & He). now exists e.
    + exists (Some (Signal.Cached crs)). split; [assumption|discriminate].
  - assert (Hsrc : In r (Signal.non_weak_receivers c
                           (map snd (filter (Signal.qualifies sender)
                                       (Signal.receivers
                                          (Signal._clear_dead_receivers c s)))))
                   /\ Signal.use_caching s && negb (Signal.weakrefable sender)
                      = false).
    { rewrite Huc in Hlive. unfold Signal.cache_set in Hlive.
      rewrite Huc in Hlive.
      destruct (Signal.use_caching s) eqn:Ecaching; simpl in *.
      - destruct (negb (Signal.weakrefable sender)); [discriminate|].
        injection Hlive as <- _. now split.
      - injection Hlive as <- _. now split. }
    destruct Hsrc as [Hsrc Hget].
    apply non_weak_receivers_in in Hsrc as (x & Hx & _).
    apply in_map_iff in Hx as (e & _ & He).
    apply filter_In in He as [He Hq]. apply Hsub in He.
    split; [now exists e|].
    unfold Signal.cache_get. rewrite Hget.
    eexists. split; [reflexivity|].
    intros Hno. specialize (H2 sender Hno).
    assert (Hin' : In e (filter (Signal.qualifies sender) (Signal.receivers s)))
      by (apply filter_In; now split).
    rewrite H2 in Hin'. contradiction.
  - discriminate.
Qed.

Lemma dispatch_open :
  forall environ c sender s rs s' r,
    Signal.coherent c s ->
    Signal._live_receivers c sender s = (Ok rs, s') ->
    In r rs ->
    Signal.no_dispatch environ sender s = Ok (Signal.unittest_mode environ).
Proof.
  intros environ c sender s rs s' r Hco Hlive Hin.
  destruct (live_receivers_source c sender s rs s' r Hco Hlive Hin)
    as [(e & He) (o & Hget & Hno)].
  unfold Signal.no_dispatch. rewrite Hget.
  destruct (Signal.receivers s); [contradiction|].
  destruct o as [[|crs]|]; try reflexivity. now contradiction Hno.
Qed.

Lemma call_all_stops :
  forall (H : Host) sender named pre r post e,
    (forall x, In x pre -> exists v, receiver_call x sender named = Returns v) ->
    receiver_call r sender named = Raises e ->
    Signal.call_all sender named (pre ++ r :: post) = (Err e, pre ++ [r]).
Proof.
  intros H sender named pre r post e Hpre Hr.
  induction pre as [|x pre IH]; simpl.
  - now rewrite Hr.
  - destruct (Hpre x (or_introl eq_refl)) as [v Hv]. rewrite Hv.
    rewrite IH; [reflexivity|].
    intros y Hy. apply Hpre. now right.
Qed.

(** The loop of [send_robust] goes through the whole list when every
    exception raised on the way is an [Exception]. *)
Lemma call_all_robust_calls_all :
  forall (H : Host) sender named rs,
    (forall x e, In x rs -> receiver_call x sender named = Raises e ->
                 is_Exception e = true) ->
    Signal.call_all_robust sender named rs
    = (Ok (map (fun x => (x, receiver_call x sender named)) rs), rs).
Proof.
  intros H sender named rs Hall. induction rs as [|r rs IH]; simpl.
  - reflexivity.
  - rewrite IH by (intros x e Hx; apply Hall; now right).
    destruct (receiver_call r sender named) as [v|e] eqn:Hr; [reflexivity|].
    now rewrite (Hall r e (or_introl eq_refl) Hr).
Qed.

(** It stops at the first exception that is not an [Exception]. *)
Lemma call_all_robust_stops :
  forall (H : Host) sender named pre r post e,
    (forall x e', In x pre -> receiver_call x sender named = Raises e' ->
                  is_Exception e' = true) ->
    receiver_call r sender named = Raises e ->
    is_Exception e = false ->
    Signal.call_all_robust sender named (pre ++ r :: post)
    = (Err e, pre ++ [r]).
Proof.
  intros H sender named pre r post e Hpre Hr He.
  induction pre as [|x pre IH]; simpl.
  - now rewrite Hr, He.
  - rewrite IH by (intros y e' Hy; apply Hpre; now right).
    destruct (receiver_call x sender named) as [v|e'] eqn:Hx; [reflexivity|].
    now rewrite (Hpre x e' (or_introl eq_refl) Hx).
Qed.

(** The two ways the loop of [send_robust] can end. *)
Lemma call_all_robust_cases :
  forall (H : Host) sender named rs,
    Signal.call_all_robust sender named rs
    = (Ok (map (fun x => (x, receiver_call x sender named)) rs), rs)
    \/ exists pre r post e,
         rs = pre ++ r :: post
         /\ receiver_call r sender named = Raises e
         /\ is_Exception e = false
         /\ Signal.call_all_robust sender named rs = (Err e, pre ++ [r]).
Proof.
  intros H sender named rs. induction rs as [|x rs IH].
  - now left.
  - destruct (receiver_call x sender named) as [v|e] eqn:Hx.
    + destruct IH as [IH | (pre & r & post & e & -> & Hr & He & IH)].
      * left. simpl. now rewrite Hx, IH.
      * right. exists (x :: pre), r, post, e.
        repeat split; try assumption. simpl. now rewrite Hx, IH.
    + destruct (is_Exception e) eqn:He.
      * destruct IH as [IH | (pre & r & post & e0 & -> & Hr & He0 & IH)].
        -- left. simpl. now rewrite Hx, He, IH.
        -- right. exists (x :: pre), r, post, e0.
           repeat split; try assumption. simpl. now rewrite Hx, He, IH.
      * right. exists [], x, rs, e. repeat split; try assumption.
        simpl. now rewrite Hx, He.
Qed.

Lemma call_all_robust_ok :
  forall (H : Host) sender named rs l called,
    Signal.call_all_robust sender named rs = (Ok l, called) ->
    called = rs /\ l = map (fun x => (x, receiver_call x sender named)) rs.
Proof.
  intros H sender named rs l called Hcall.
  destruct (call_all_robust_cases H sender named rs)
    as [Hall | (pre & r & post & e & _ & _ & _ & Hstop)].
  - rewrite Hall in Hcall. injection Hcall as <- <-. now split.
  - rewrite Hstop in Hcall. discriminate.
Qed.

(** The test that opens [send] and [send_robust] in unit-test mode. *)
Lemma no_dispatch_unittest :
  forall environ sender s,
    Signal.receivers s = []
    \/ (Signal.unittest_mode environ = true
        /\ (Signal.use_caching s = false \/ Signal.weakrefable sender = true)) ->
    Signal.no_dispatch environ sender s = Ok true.
Proof.
  intros environ sender s Hcase. unfold Signal.no_dispatch.
  destruct Hcase as [-> | [Hflag Hget]]; [reflexivity|].
  destruct (Signal.receivers s); [reflexivity|].
  unfold Signal.cache_get.
  replace (Signal.use_caching s && negb (Signal.weakrefable sender))
    with false
    by (destruct Hget as [-> | ->]; [reflexivity|now rewrite andb_false_r]).
  rewrite Hflag.
  destruct (Signal.cache_lookup sender (Signal.sender_receivers_cache s))
    as [[|crs]|]; reflexivity.
Qed.


(** The claim C4 fails when the unit-test flag is set: [send] and
    [send_robust] return the empty list and call no receiver, although
    the receiver 7 would raise. *)
Lemma unittest_flag_disables_send :
  ~ send_fails_fast example_host [("TERRA_UNITTEST", "1")] [] TNone []
      example_signal.
Proof.
  intros Hclaim.
  destruct (Hclaim [TObj 5] (TObj 7) [TObj 9] (OtherError "receiver failed")
              example_signal eq_refl) as [Hsend _].
  - intros x [<-|[]]. now exists VNone.
  - reflexivity.
  - vm_compute in Hsend. discriminate.
Qed.

(** C4, amended.  When [TERRA_UNITTEST] is ["1"] and looking the sender
    up in the receiver cache cannot fail (no caching, or a sender that
    can be weakly referenced), [send] and [send_robust] return the empty
    list and call nobody; with caching and the sender [None], both raise
    [TypeError] on a signal that has receivers, before the flag is looked
    at.  When the flag is not set, [send] calls the live receivers of the
    sender in order, stops at the first one that raises and propagates
    its error, so the receivers after it are not called.  [send_robust]
    calls every one of them and returns, for each, what it returned or
    the error it raised, as long as the errors raised are [Exception]s;
    an error that is not one ([SystemExit], [KeyboardInterrupt],
    [GeneratorExit]) leaves [send_robust] as it leaves [send], and the
    receivers after it are not called. *)
Theorem send_fails_fast_outside_unittest :
  forall (H : Host) (environ : list (string * string)) (collected : list nat)
         (sender : target) (named : dict) (s : Signal.t),
    Signal.reachable collected s ->
    (Signal.unittest_mode environ = true ->
     Signal.use_caching s = false \/ Signal.weakrefable sender = true ->
     Signal.send environ collected sender named s = (Ok [], s, [])
     /\ Signal.send_robust environ collected sender named s = (Ok [], s, []))
    /\ (Signal.use_caching s = true ->
        Signal.weakrefable sender = false ->
        Signal.receivers s <> [] ->
        exists msg,
          Signal.send environ collected sender named s
          = (Err (TypeError msg), s, [])
          /\ Signal.send_robust environ collected sender named s
             = (Err (TypeError msg), s, []))
    /\ (Signal.unittest_mode environ = false ->
        forall pre r post e s',
          Signal._live_receivers collected sender s
          = (Ok (pre ++ r :: post), s') ->
          receiver_call r sender named = Raises e ->
          ((forall x, In x pre ->
                      exists v, receiver_call x sender named = Returns v) ->
           Signal.send environ collected sender named s
           = (Err e, s', pre ++ [r]))
          /\ ((forall x e', In x (pre ++ r :: post) ->
                            receiver_call x sender named = Raises e' ->
                            is_Exception e' = true) ->
              Signal.send_robust environ collected sender named s
              = (Ok (map (fun x => (x, receiver_call x sender named))
                       (pre ++ r :: post)),
                 s', pre ++ r :: post))
          /\ (is_Exception e = false ->
              (forall x e', In x pre ->
                            receiver_call x sender named = Raises e' ->
                            is_Exception e' = true) ->
              Signal.send_robust environ collected sender named s
              = (Err e, s', pre ++ [r]))).
Proof.
  intros H environ collected sender named s Hreach. split; [|split].
  - intros Hflag Hget.
    assert (Hgate : Signal.no_dispatch environ sender s = Ok true)
      by (apply no_dispatch_unittest; right; now split).
    unfold Signal.send, Signal.send_robust. now rewrite Hgate.
  - intros Huc Hweak Hrs.
    assert (Hgate : Signal.no_dispatch environ sender s
                    = Err (TypeError "cannot create weak reference")).
    { unfold Signal.no_dispatch, Signal.cache_get.
      destruct (Signal.receivers s); [now contradiction Hrs|].
      now rewrite Huc, Hweak. }
    exists "cannot create weak reference".
    unfold Signal.send, Signal.send_robust. now rewrite Hgate.
  - intros Hflag pre r post e s' Hlive Hr.
    assert (Hopen : Signal.no_dispatch environ sender s = Ok false).
    { rewrite <- Hflag.
      apply (dispatch_open environ collected sender s (pre ++ r :: post) s' r).
      - now apply reachable_coherent.
      - assumption.
      - apply in_or_app. right. now left. }
    unfold Signal.send, Signal.send_robust. rewrite Hopen, Hlive.
    split; [|split].
    + intros Hpre.
      now rewrite (call_all_stops H sender named pre r post e Hpre Hr).
    + intros Hall.
      now rewrite (call_all_robust_calls_all H sender named _ Hall).
    + intros He Hpre.
      now rewrite (call_all_robust_stops H sender named pre r post e Hpre Hr He).
Qed.

Lemma send_fails_fast_outside_unittest_witness :
  @Signal.send example_host [] [] TNone [] example_signal
  = (Err (OtherError "receiver failed"), example_signal, [TObj 5; TObj 7])
  /\ @Signal.send_robust example_host [] [] TNone [] example_signal
     = (Ok [ (TObj 5, Returns VNone);
             (TObj 7, Raises (OtherError "receiver failed"));
             (TObj 9, Returns VNone) ],
        example_signal, [TObj 5; TObj 7; TObj 9])
  /\ @Signal.send_robust example_exit_host [] [] TNone [] example_signal
     = (Err (SystemExit "1"), example_signal, [TObj 5; TObj 7])
  /\ @Signal.send_robust example_host [("TERRA_UNITTEST", "1")] [] TNone []
       example_signal
     = (Ok [], example_signal, []).
Proof.
  pose proof (proj2 (proj2 (send_fails_fast_outside_unittest example_host
                              [] [] TNone [] example_signal
                              example_signal_reachable))
                eq_refl [TObj 5] (TObj 7) [TObj 9]
                (OtherError "receiver failed") example_signal
                eq_refl eq_refl) as (Hsend & Hrobust & _).
  pose proof (proj2 (proj2 (send_fails_fast_outside_unittest example_exit_host
                              [] [] TNone [] example_signal
                              example_signal_reachable))
                eq_refl [TObj 5] (TObj 7) [TObj 9]
                (SystemExit "1") example_signal
                eq_refl eq_refl) as (_ & _ & Hexit).
  split; [|split; [|split]].
  - apply Hsend. intros x [<-|[]]. now exists VNone.
  - apply Hrobust.
    intros x e' [<-|[<-|[<-|[]]]] Hx; vm_compute in Hx;
      try discriminate. now injection Hx as <-.
  - apply Hexit; [reflexivity|].
    intros x e' [<-|[]] Hx. vm_compute in Hx. discriminate.
  - apply (proj1 (send_fails_fast_outside_unittest example_host
                    [("TERRA_UNITTEST", "1")] [] TNone [] example_signal
                    example_signal_reachable) eq_refl).
    now left.
Defined.

(* ===================================================================== *)
(** * Part III: further properties of the signal dispatcher *)
(* ===================================================================== *)

Lemma non_weak_receivers_alive :
  forall c rs,
    Signal.non_weak_receivers c rs
    = map Signal.referent (filter (Signal.alive c) rs).
Proof.
  intros c rs. induction rs as [|[x|x] rs IH]; simpl.
  - reflexivity.
  - now rewrite IH.
  - unfold Signal.alive at 1. simpl.
    destruct (Signal.is_collected c x); simpl; now rewrite IH.
Qed.

Lemma alive_mono :
  forall c c' r,
    incl c c' -> Signal.alive c' r = true -> Signal.alive c r = true.
Proof.
  unfold Signal.alive. intros c c' r Hincl Halive.
  apply negb_true_iff in Halive. apply negb_true_iff.
  now apply (is_dead_weak_mono c c').
Qed.

Lemma filter_alive_mono :
  forall c c' (l : list Signal.ref),
    incl c c' ->
    filter (Signal.alive c') (filter (Signal.alive c) l)
    = filter (Signal.alive c') l.
Proof.
  intros c c' l Hincl. induction l as [|r l IH]; simpl; [reflexivity|].
  destruct (Signal.alive c r) eqn:Ec; simpl.
  - now rewrite IH.
  - destruct (Signal.alive c' r) eqn:Ec'; [|assumption].
    apply (alive_mono c c' r Hincl) in Ec'. congruence.
Qed.

Lemma filter_alive_swept :
  forall c sender (rs : list (Signal.lookup_key * Signal.ref)),
    filter (Signal.alive c)
      (map snd
         (filter (Signal.qualifies sender)
            (filter (fun r => negb (Signal.is_dead_weak c (snd r))) rs)))
    = filter (Signal.alive c)
        (map snd (filter (Signal.qualifies sender) rs)).
Proof.
  intros c sender rs. induction rs as [|e rs IH]; simpl; [reflexivity|].
  destruct (Signal.is_dead_weak c (snd e)) eqn:Edead; simpl.
  - assert (Ha : Signal.alive c (snd e) = false)
      by (unfold Signal.alive; now rewrite Edead).
    destruct (Signal.qualifies sender e); simpl; [|assumption].
    now rewrite Ha.
  - assert (Ha : Signal.alive c (snd e) = true)
      by (unfold Signal.alive; now rewrite Edead).
    destruct (Signal.qualifies sender e); simpl; [|assumption].
    rewrite Ha. now rewrite IH.
Qed.

Lemma registered_live_swept :
  forall c sender s,
    Signal.registered_live c sender (Signal._clear_dead_receivers c s)
    = Signal.registered_live c sender s.
Proof.
  intros c sender s. unfold Signal.registered_live, Signal._clear_dead_receivers.
  destruct (Signal._dead_receivers s); [|reflexivity]. simpl.
  rewrite !non_weak_receivers_alive. now rewrite filter_alive_swept.
Qed.

Lemma cache_exact_empty :
  forall c (s : Signal.t),
    Signal.sender_receivers_cache s = [] -> Signal.cache_exact c s.
Proof.
  intros c s Hcache sender. now rewrite Hcache.
Qed.

Lemma cache_exact_clear :
  forall c s,
    Signal.cache_exact c s ->
    Signal.cache_exact c (Signal._clear_dead_receivers c s).
Proof.
  intros c s Hexact sender. specialize (Hexact sender).
  unfold Signal._clear_dead_receivers.
  destruct (Signal._dead_receivers s); [|assumption]. simpl.
  destruct (Signal.cache_lookup sender (Signal.sender_receivers_cache s))
    as [[|l]|]; [| |trivial].
  - induction (Signal.receivers s) as [|e rs IH]; simpl in *; [reflexivity|].
    destruct (Signal.qualifies sender e) eqn:Eq; [discriminate|].
    destruct (negb (Signal.is_dead_weak c (snd e))); simpl;
      [rewrite Eq|]; now apply IH.
  - rewrite Hexact. symmetry. apply filter_alive_swept.
Qed.

Lemma reachable_cache_exact :
  forall c s, Signal.reachable c s -> Signal.cache_exact c s.
Proof.
  intros c s Hreach.
  induction Hreach as [uc | c c' s _ IH Hincl | s c r sender weak uid _ IH
                       | s c r sender uid _ IH | s c sender _ IH | s c _ IH].
  - now apply cache_exact_empty.
  - intros sender. specialize (IH sender).
    destruct (Signal.cache_lookup sender (Signal.sender_receivers_cache s))
      as [[|l]|]; try assumption.
    rewrite <- (filter_alive_mono c c' l Hincl), IH.
    apply filter_alive_mono. assumption.
  - unfold Signal.connect.
    destruct (weak && negb (Signal.weakrefable r)); simpl; [assumption|].
    now apply cache_exact_empty.
  - unfold Signal.disconnect.
    destruct (Signal.remove_first _ _) as [b rs].
    now apply cache_exact_empty.
  - unfold Signal._live_receivers.
    destruct (if Signal.use_caching s && negb (Signal._dead_receivers s)
              then Signal.cache_get sender s else Ok None) as [[[|rs]|]|e];
      simpl; try assumption.
    pose proof (cache_exact_clear c s IH) as Hclear.
    destruct (Signal.use_caching (Signal._clear_dead_receivers c s)) eqn:Huc;
      [|assumption].
    unfold Signal.cache_set. rewrite Huc.
    destruct (true && negb (Signal.weakrefable sender)); simpl; [assumption|].
    intros sender'. simpl. rewrite cache_lookup_store.
    destruct (Signal.target_eqb sender sender') eqn:E; [|apply Hclear].
    apply target_eqb_eq in E. subst sender'.
    destruct (map snd (filter (Signal.qualifies sender)
                         (Signal.receivers (Signal._clear_dead_receivers c s))))
      as [|y l] eqn:Emap; [|reflexivity].
    now apply map_eq_nil in Emap.
  - intros sender. apply (IH sender).
Qed.

(** Whatever the cache holds, [_live_receivers] answers with the
    receivers that are registered for the sender (or for every sender)
    and still alive, in the order they were connected. *)
Theorem live_receivers_are_registered :
  forall c sender s rs s',
    Signal.reachable c s ->
    Signal._live_receivers c sender s = (Ok rs, s') ->
    rs = Signal.registered_live c sender s
    /\ Signal.registered_live c sender s' = rs.
Proof.
  intros c sender s rs s' Hreach Hlive.
  pose proof (reachable_cache_exact c s Hreach sender) as Hexact.
  assert (Hs' : Signal.registered_live c sender s'
                = Signal.registered_live c sender s).
  { assert (Hst : s' = snd (Signal._live_receivers c sender s))
      by now rewrite Hlive.
    unfold Signal.registered_live.
    destruct (live_receivers_registered c sender s) as [Heq|Heq];
      rewrite Hst, Heq; [reflexivity|].
    apply registered_live_swept. }
  assert (Hrs : rs = Signal.registered_live c sender s);
    [|split; [assumption|now rewrite Hs']].
  unfold Signal._live_receivers in Hlive.
  destruct (Signal.use_caching s && negb (Signal._dead_receivers s)) eqn:Ecache.
  - unfold Signal.cache_get in Hlive.
    destruct (Signal.use_caching s && negb (Signal.weakrefable sender)) eqn:Eweak;
      [discriminate|].
    destruct (Signal.cache_lookup sender (Signal.sender_receivers_cache s))
      as [[|l]|].
    + injection Hlive as <- _. unfold Signal.registered_live.
      now rewrite Hexact.
    + injection Hlive as <- _. unfold Signal.registered_live.
      rewrite !non_weak_receivers_alive. now rewrite Hexact.
    + rewrite <- (registered_live_swept c sender s).
      destruct (Signal.use_caching (Signal._clear_dead_receivers c s));
        [destruct (Signal.cache_set _ _ _); [|discriminate]|];
        now injection Hlive as <- _.
  - rewrite <- (registered_live_swept c sender s).
    destruct (Signal.use_caching (Signal._clear_dead_receivers c s));
      [destruct (Signal.cache_set _ _ _); [|discriminate]|];
      now injection Hlive as <- _.
Qed.

Lemma live_receivers_are_registered_witness :
  Signal.registered_live [] TNone example_signal = [TObj 5; TObj 7; TObj 9].
Proof.
  exact (eq_sym (proj1 (live_receivers_are_registered [] TNone example_signal
                          [TObj 5; TObj 7; TObj 9] example_signal
                          example_signal_reachable eq_refl))).
Defined.

Lemma registered_live_in :
  forall c sender s r,
    In r (Signal.registered_live c sender s)
    <-> exists e,
          In e (Signal.receivers s)
          /\ Signal.qualifies sender e = true
          /\ Signal.alive c (snd e) = true
          /\ Signal.referent (snd e) = r.
Proof.
  intros c sender s r. unfold Signal.registered_live.
  rewrite non_weak_receivers_alive, in_map_iff. split.
  - intros (x & Hx & Hin). apply filter_In in Hin as [Hin Halive].
    apply in_map_iff in Hin as (e & <- & He).
    apply filter_In in He as [He Hq]. now exists e.
  - intros (e & He & Hq & Halive & Href).
    exists (snd e). split; [assumption|].
    apply filter_In. split; [|assumption].
    apply in_map_iff. exists e. split; [reflexivity|].
    apply filter_In. now split.
Qed.

(** A receiver is handed out by [_live_receivers] exactly when an entry
    for it is registered whose sender filter is [None] or the sender and
    whose reference is still alive: a weak receiver that was reclaimed
    and a receiver registered for another sender are never called. *)
Theorem live_receiver_iff :
  forall c sender s rs s' r,
    Signal.reachable c s ->
    Signal._live_receivers c sender s = (Ok rs, s') ->
    (In r rs
     <-> exists e,
           In e (Signal.receivers s)
           /\ Signal.qualifies sender e = true
           /\ Signal.alive c (snd e) = true
           /\ Signal.referent (snd e) = r).
Proof.
  intros c sender s rs s' r Hreach Hlive.
  destruct (live_receivers_are_registered c sender s rs s' Hreach Hlive)
    as [-> _].
  apply registered_live_in.
Qed.

Lemma live_receiver_iff_witness :
  In (TObj 7) [TObj 5; TObj 7; TObj 9]
  <-> exists e,
        In e (Signal.receivers example_signal)
        /\ Signal.qualifies TNone e = true
        /\ Signal.alive [] (snd e) = true
        /\ Signal.referent (snd e) = TObj 7.
Proof.
  exact (live_receiver_iff [] TNone example_signal [TObj 5; TObj 7; TObj 9]
           example_signal (TObj 7) example_signal_reachable eq_refl).
Defined.

(** X1: [has_listeners] answers [True] exactly when some registered entry
    qualifies for the sender and is alive. *)
Theorem has_listeners_iff :
  forall c sender s b s',
    Signal.reachable c s ->
    Signal.has_listeners c sender s = (Ok b, s') ->
    (b = true
     <-> exists e,
           In e (Signal.receivers s)
           /\ Signal.qualifies sender e = true
           /\ Signal.alive c (snd e) = true).
Proof.
  intros c sender s b s' Hreach Hhas. unfold Signal.has_listeners in Hhas.
  destruct (Signal._live_receivers c sender s) as [[rs|e] s1] eqn:Hlive;
    [|discriminate].
  injection Hhas as <- _.
  pose proof (fun r => live_receiver_iff c sender s rs s1 r Hreach Hlive) as Hiff.
  split.
  - destruct rs as [|r rs]; [discriminate|]. intros _.
    destruct (proj1 (Hiff r) (or_introl eq_refl)) as (e & He & Hq & Ha & _).
    now exists e.
  - intros (e & He & Hq & Ha).
    assert (Hin : In (Signal.referent (snd e)) rs)
      by (apply Hiff; now exists e).
    destruct rs; [contradiction|reflexivity].
Qed.

Lemma has_listeners_iff_witness :
  true = true
  <-> exists e,
        In e (Signal.receivers example_signal)
        /\ Signal.qualifies (TObj 1) e = true
        /\ Signal.alive [] (snd e) = true.
Proof.
  exact (has_listeners_iff [] (TObj 1) example_signal true example_signal
           example_signal_reachable eq_refl).
Defined.

Lemma remove_first_spec :
  forall key rs,
    NoDup (map fst rs) ->
    (fst (Signal.remove_first key rs) = true <-> In key (map fst rs))
    /\ ~ In key (map fst (snd (Signal.remove_first key rs)))
    /\ (forall e, In e rs -> fst e <> key ->
                  In e (snd (Signal.remove_first key rs))).
Proof.
  intros key rs. induction rs as [|e rs IH]; simpl; intros Hnd.
  - repeat split; try tauto. discriminate.
  - inversion Hnd as [|k l Hnotin Hnd']; subst.
    destruct (Signal.key_eqb (fst e) key) eqn:E; simpl.
    + apply key_eqb_eq in E. subst key.
      repeat split; auto.
      intros x [<-|Hx] Hne; [contradiction|assumption].
    + assert (Hne : fst e <> key).
      { intros Heq. apply key_eqb_eq in Heq. congruence. }
      destruct (IH Hnd') as (IH1 & IH2 & IH3).
      destruct (Signal.remove_first key rs) as [b rs'']; simpl in *.
      repeat split.
      * intros Hb. right. now apply IH1.
      * intros [Heq|Hin]; [contradiction|now apply IH1].
      * intros [Heq|Hin]; [contradiction|now apply IH2].
      * intros x [<-|Hx] Hxk; [now left|right; now apply IH3].
Qed.

(** X2: [disconnect] returns [True] exactly when the lookup key was
    registered (after the sweep of dead receivers); afterwards no entry
    has that key, every other entry is still there and nothing was
    added. *)
Theorem disconnect_removes_key :
  forall c receiver sender uid s,
    Signal.reachable c s ->
    let key := Signal.make_lookup_key receiver sender uid in
    let swept := Signal._clear_dead_receivers c s in
    let result := Signal.disconnect c receiver sender uid s in
    (fst result = true <-> In key (map fst (Signal.receivers swept)))
    /\ ~ In key (map fst (Signal.receivers (snd result)))
    /\ (forall e, In e (Signal.receivers swept) -> fst e <> key ->
                  In e (Signal.receivers (snd result)))
    /\ (forall e, In e (Signal.receivers (snd result)) ->
                  In e (Signal.receivers s)).
Proof.
  intros c receiver sender uid s Hreach key swept result.
  pose proof (reachable_keys_unique c s Hreach) as Hnd.
  pose proof (clear_dead_receivers_keys c s Hnd) as Hswept.
  destruct (remove_first_spec key _ Hswept) as (R1 & R2 & R3).
  destruct (remove_first_keys key _ Hswept) as [_ Hincl].
  destruct (clear_dead_receivers_fields c s) as (_ & _ & Hsub & _).
  unfold result, Signal.disconnect. fold key.
  destruct (Signal.remove_first key
              (Signal.receivers (Signal._clear_dead_receivers c s)))
    as [b rs]; simpl in *.
  split; [exact R1|]. split; [exact R2|]. split; [exact R3|].
  intros e He. apply Hsub. now apply Hincl.
Qed.

Lemma disconnect_removes_key_witness :
  fst (Signal.disconnect [] (TObj 7) TNone None example_signal) = true
  /\ ~ In (Signal.make_lookup_key (TObj 7) TNone None)
         (map fst
            (Signal.receivers
               (snd (Signal.disconnect [] (TObj 7) TNone None example_signal)))).
Proof.
  destruct (disconnect_removes_key [] (TObj 7) TNone None example_signal
              example_signal_reachable) as (Hret & Hgone & _).
  split; [|exact Hgone].
  apply Hret. vm_compute. right. left. reflexivity.
Defined.

(** X3: With no registered receiver at all, or in unit-test mode (as long
    as looking the sender up in the cache does not fail), [send] and
    [send_robust] return the empty list, call nobody and leave the signal
    as it is. *)
Theorem send_disabled :
  forall (H : Host) environ c sender named s,
    Signal.receivers s = []
    \/ (Signal.unittest_mode environ = true
        /\ (Signal.use_caching s = false \/ Signal.weakrefable sender = true)) ->
    Signal.send environ c sender named s = (Ok [], s, [])
    /\ Signal.send_robust environ c sender named s = (Ok [], s, []).
Proof.
  intros H environ c sender named s Hcase.
  pose proof (no_dispatch_unittest environ sender s Hcase) as Hgate.
  unfold Signal.send, Signal.send_robust. now rewrite Hgate.
Qed.

Lemma send_disabled_witness :
  @Signal.send example_host [("TERRA_UNITTEST", "1")] [] TNone []
    example_signal
  = (Ok [], example_signal, []).
Proof.
  apply (send_disabled example_host [("TERRA_UNITTEST", "1")] [] TNone []
           example_signal).
  right. split; [reflexivity|left; reflexivity].
Defined.

Lemma call_all_no_failure :
  forall (H : Host) sender named rs,
    (forall r, In r rs -> exists v, receiver_call r sender named = Returns v) ->
    Signal.call_all sender named rs
    = (Ok (map (fun x => (x, receiver_call x sender named)) rs), rs).
Proof.
  intros H sender named rs Hall. induction rs as [|r rs IH]; simpl.
  - reflexivity.
  - destruct (Hall r (or_introl eq_refl)) as [v Hv]. rewrite Hv.
    rewrite IH; [reflexivity|].
    intros x Hx. apply Hall. now right.
Qed.

(** X4: When none of the live receivers raises, [send] and [send_robust]
    do the same: the same result, the same calls in the same order, the
    same signal state. *)
Theorem send_agrees_with_send_robust :
  forall (H : Host) environ c sender named s,
    (forall rs s' r,
        Signal._live_receivers c sender s = (Ok rs, s') ->
        In r rs ->
        exists v, receiver_call r sender named = Returns v) ->
    Signal.send environ c sender named s
    = Signal.send_robust environ c sender named s.
Proof.
  intros H environ c sender named s Hall.
  unfold Signal.send, Signal.send_robust.
  destruct (Signal.no_dispatch environ sender s) as [[|]|e]; try reflexivity.
  destruct (Signal._live_receivers c sender s) as [[rs|e] s'] eqn:Hlive;
    [|reflexivity].
  rewrite call_all_no_failure, call_all_robust_calls_all; [reflexivity| |].
  - intros x e Hx Hraise.
    destruct (Hall rs s' x eq_refl Hx) as [v Hv]. congruence.
  - intros r Hr. now apply (Hall rs s').
Qed.

Lemma send_agrees_with_send_robust_witness :
  @Signal.send example_host [] [] TNone []
    (snd (Signal.disconnect [] (TObj 7) TNone None example_signal))
  = @Signal.send_robust example_host [] [] TNone []
      (snd (Signal.disconnect [] (TObj 7) TNone None example_signal)).
Proof.
  apply (send_agrees_with_send_robust example_host).
  intros rs s' r Hlive Hin. vm_compute in Hlive. injection Hlive as <- _.
  destruct Hin as [<-|[<-|[]]]; now exists VNone.
Defined.

(** X5: Without [use_caching], [send_robust] raises only when a
    receiver raises an error that is not an [Exception] ([SystemExit],
    [KeyboardInterrupt], [GeneratorExit]): it then raises that error and
    the receivers after that one are not called.  Otherwise, so whenever
    every error raised is an [Exception], it returns one entry for every
    receiver it called, in the order of the calls, and the entry holds
    what the receiver returned or the error it raised. *)
Theorem send_robust_contains_errors :
  forall (H : Host) environ c sender named s,
    Signal.use_caching s = false ->
    exists s' called,
      (Signal.send_robust environ c sender named s
       = (Ok (map (fun x => (x, receiver_call x sender named)) called),
          s', called)
       \/ exists pre r e,
            called = pre ++ [r]
            /\ receiver_call r sender named = Raises e
            /\ is_Exception e = false
            /\ Signal.send_robust environ c sender named s
               = (Err e, s', called))
      /\ ((forall x e, In x called ->
                       receiver_call x sender named = Raises e ->
                       is_Exception e = true) ->
          Signal.send_robust environ c sender named s
          = (Ok (map (fun x => (x, receiver_call x sender named)) called),
             s', called)).
Proof.
  intros H environ c sender named s Huc.
  assert (Hshape :
            exists s' called,
              Signal.send_robust environ c sender named s
              = (Ok (map (fun x => (x, receiver_call x sender named)) called),
                 s', called)
              \/ exists pre r e,
                   called = pre ++ [r]
                   /\ receiver_call r sender named = Raises e
                   /\ is_Exception e = false
                   /\ Signal.send_robust environ c sender named s
                      = (Err e, s', called)).
  { unfold Signal.send_robust, Signal.no_dispatch, Signal.cache_get.
    rewrite Huc. simpl.
    assert (Hlive : exists rs s',
               Signal._live_receivers c sender s = (Ok rs, s')).
    { unfold Signal._live_receivers. rewrite Huc. simpl.
      destruct (clear_dead_receivers_fields c s) as (Huc' & _).
      rewrite Huc', Huc. eauto. }
    destruct Hlive as (rs & s' & Hlive). rewrite Hlive.
    assert (Hgo :
              exists called,
                (let '(out, called0) := Signal.call_all_robust sender named rs in
                 (out, s', called0))
                = (Ok (map (fun x => (x, receiver_call x sender named)) called),
                   s', called)
                \/ exists pre r e,
                     called = pre ++ [r]
                     /\ receiver_call r sender named = Raises e
                     /\ is_Exception e = false
                     /\ (let '(out, called0) :=
                           Signal.call_all_robust sender named rs in
                         (out, s', called0))
                        = (Err e, s', called)).
    { destruct (call_all_robust_cases H sender named rs)
        as [Hall | (pre & r & post & e & _ & Hr & He & Hstop)].
      - exists rs. left. now rewrite Hall.
      - exists (pre ++ [r]). right. exists pre, r, e.
        repeat split; try assumption. now rewrite Hstop. }
    destruct Hgo as (called & Hgo).
    destruct (Signal.receivers s); [exists s, []; now left|].
    destruct (Signal.cache_lookup sender (Signal.sender_receivers_cache s))
      as [[|crs]|]; try (exists s, []; now left);
      destruct (Signal.unittest_mode environ);
      try (exists s, []; now left); exists s', called; exact Hgo. }
  destruct Hshape as (s' & called & Hshape).
  exists s', called. split; [exact Hshape|].
  intros Hall.
  destruct Hshape as [Hok | (pre & r & e & -> & Hr & He & _)]; [exact Hok|].
  assert (Hin : In r (pre ++ [r])) by (apply in_or_app; right; now left).
  rewrite (Hall r e Hin Hr) in He. discriminate.
Qed.

Lemma send_robust_contains_errors_witness :
  exists s' called,
    (@Signal.send_robust example_host [] [] TNone [] example_signal
     = (Ok (map (fun x => (x, @receiver_call example_host x TNone [])) called),
        s', called)
     \/ exists pre r e,
          called = pre ++ [r]
          /\ @receiver_call example_host r TNone [] = Raises e
          /\ is_Exception e = false
          /\ @Signal.send_robust example_host [] [] TNone [] example_signal
             = (Err e, s', called))
    /\ ((forall x e, In x called ->
                     @receiver_call example_host x TNone [] = Raises e ->
                     is_Exception e = true) ->
        @Signal.send_robust example_host [] [] TNone [] example_signal
        = (Ok (map (fun x => (x, @receiver_call example_host x TNone []))
                 called),
           s', called)).
Proof.
  apply (send_robust_contains_errors example_host [] [] TNone []
           example_signal eq_refl).
Defined.

(** X6: A receiver connected with a strong reference stays registered
    through the sweep of dead receivers, through every [connect],
    through [_live_receivers] (so through every [send]) and through
    every [disconnect] of another lookup key. *)
Theorem strong_receiver_stays :
  forall c key r s,
    In (key, Signal.Strong r) (Signal.receivers s) ->
    In (key, Signal.Strong r)
      (Signal.receivers (Signal._clear_dead_receivers c s))
    /\ (forall receiver sender weak uid,
          In (key, Signal.Strong r)
            (Signal.receivers
               (snd (Signal.connect c receiver sender weak uid s))))
    /\ (forall sender,
          In (key, Signal.Strong r)
            (Signal.receivers (snd (Signal._live_receivers c sender s))))
    /\ (forall receiver sender uid,
          Signal.make_lookup_key receiver sender uid <> key ->
          NoDup (map fst (Signal.receivers s)) ->
          In (key, Signal.Strong r)
            (Signal.receivers
               (snd (Signal.disconnect c receiver sender uid s)))).
Proof.
  intros c key r s Hin.
  destruct (clear_dead_receivers_fields c s) as (_ & _ & _ & Hkeep).
  assert (Hswept : In (key, Signal.Strong r)
                     (Signal.receivers (Signal._clear_dead_receivers c s)))
    by now apply Hkeep.
  split; [assumption|]. split; [|split].
  - intros receiver sender weak uid. unfold Signal.connect.
    destruct (weak && negb (Signal.weakrefable receiver)); simpl; [assumption|].
    destruct (existsb _ _); [assumption|].
    apply in_or_app. now left.
  - intros sender.
    destruct (live_receivers_registered c sender s) as [-> | ->]; assumption.
  - intros receiver sender uid Hne Hnd.
    pose proof (clear_dead_receivers_keys c s Hnd) as Hnd'.
    destruct (remove_first_spec (Signal.make_lookup_key receiver sender uid)
                _ Hnd') as (_ & _ & Hothers).
    unfold Signal.disconnect.
    destruct (Signal.remove_first _ _) as [b rs] eqn:E. simpl in *.
    apply Hothers; [assumption|].
    simpl. congruence.
Qed.

Lemma strong_receiver_stays_witness :
  In (Signal.make_lookup_key (TObj 7) TNone None, Signal.Strong (TObj 7))
    (Signal.receivers
       (snd (Signal._live_receivers [7] TNone
               (Signal._remove_receiver example_signal)))).
Proof.
  apply (strong_receiver_stays [7]
           (Signal.make_lookup_key (TObj 7) TNone None) (TObj 7)
           (Signal._remove_receiver example_signal)).
  vm_compute. right. left. reflexivity.
Defined.

Lemma non_weak_receivers_app :
  forall c l m,
    Signal.non_weak_receivers c (l ++ m)
    = Signal.non_weak_receivers c l ++ Signal.non_weak_receivers c m.
Proof.
  intros c l m. rewrite !non_weak_receivers_alive.
  now rewrite filter_app, map_app.
Qed.

(** X7: Dispatch order is connect order: after a successful [connect] of a
    strong receiver under a lookup key that was not registered, the live
    receivers of a sender are the ones from before followed by the new
    receiver if its sender filter lets the sender through, and the ones
    from before otherwise. *)
Theorem connect_appends_to_dispatch :
  forall c sender receiver filter_sender uid s rs s0 rs1 s1,
    Signal.reachable c s ->
    ~ In (Signal.make_lookup_key receiver filter_sender uid)
        (map fst (Signal.receivers s)) ->
    Signal._live_receivers c sender s = (Ok rs, s0) ->
    Signal._live_receivers c sender
      (snd (Signal.connect c receiver filter_sender false uid s))
    = (Ok rs1, s1) ->
    rs1 = if Signal.qualifies sender
               (Signal.make_lookup_key receiver filter_sender uid,
                Signal.Strong receiver)
          then rs ++ [receiver] else rs.
Proof.
  intros c sender receiver filter_sender uid s rs s0 rs1 s1
    Hreach Hfresh Hlive Hlive1.
  destruct (live_receivers_are_registered c sender s rs s0 Hreach Hlive)
    as [-> _].
  pose proof (Signal.reach_connect receiver filter_sender false uid Hreach)
    as Hreach1.
  destruct (live_receivers_are_registered c sender _ rs1 s1 Hreach1 Hlive1)
    as [-> _].
  rewrite <- (registered_live_swept c sender s).
  destruct (clear_dead_receivers_fields c s) as (_ & _ & Hsub & _).
  unfold Signal.registered_live, Signal.connect. simpl.
  destruct (existsb _ _) eqn:E.
  - exfalso. apply Hfresh. apply key_registered_iff in E.
    apply in_map_iff in E as (e & He & Hin).
    apply in_map_iff. exists e. split; [assumption|now apply Hsub].
  - simpl. rewrite filter_app, map_app, non_weak_receivers_app. simpl.
    destruct (Signal.qualifies sender _); simpl; [reflexivity|].
    now rewrite app_nil_r.
Qed.

Lemma connect_appends_to_dispatch_witness :
  [TObj 5; TObj 7; TObj 9; TObj 11]
  = if Signal.qualifies (TObj 1)
         (Signal.make_lookup_key (TObj 11) (TObj 1) None,
          Signal.Strong (TObj 11))
    then [TObj 5; TObj 7; TObj 9] ++ [TObj 11] else [TObj 5; TObj 7; TObj 9].
Proof.
  apply (connect_appends_to_dispatch [] (TObj 1) (TObj 11) (TObj 1) None
           example_signal [TObj 5; TObj 7; TObj 9] example_signal
           [TObj 5; TObj 7; TObj 9; TObj 11]
           (snd (Signal.connect [] (TObj 11) (TObj 1) false None
                   example_signal))
           example_signal_reachable).
  - vm_compute. intros [E|[E|[E|[]]]]; discriminate.
  - reflexivity.
  - reflexivity.
Defined.

(** ** Leaving a scope: the restoration and the notification *)






(* ===================================================================== *)
(** * Part IV: further properties of the settings *)
(* ===================================================================== *)

(** ** Nested scopes *)





(** ** [configure] and the implicit set-up *)

Section PatchInvariant.
Variable S : Type.
Variable condition : string -> value -> bool.
Variable patch : string -> value -> S -> res value * S.
Variable R : S -> S -> Prop.
Hypothesis R_refl : forall s, R s s.
Hypothesis R_trans : forall a b c, R a b -> R b c -> R a c.
Hypothesis R_patch : forall k v s, R s (snd (patch k v s)).

Lemma nested_patch_value_dict :
  forall d s,
    vsi.nested_patch_value condition patch (VDict d) s
    = let '(d', e, s') := vsi.nested_patch_items condition patch d s in
      (VDict d', e, s').
Proof.
  intros d s. reflexivity.
Qed.

(** A relation that every call of [patch] keeps holds between the state
    before and the state after the whole walk. *)
Lemma nested_patch_value_keeps :
  forall v s, R s (snd (vsi.nested_patch_value condition patch v s)).
Proof.
  induction v as [v Hatom | l _ | d IH] using value_induction; intros s.
  - destruct v; try apply R_refl; discriminate.
  - apply R_refl.
  - rewrite nested_patch_value_dict.
    assert (Hwalk : forall s0,
               R s0 (snd (vsi.nested_patch_items condition patch d s0))).
    { induction d as [|[k x] d IHd]; intros s0.
      - apply R_refl.
      - inversion IH as [|kv l Hx Hd]; subst. simpl in Hx.
        specialize (IHd Hd). simpl.
        destruct (condition k x).
        + pose proof (R_patch k x s0) as Hp.
          destruct (patch k x s0) as [[y|e] s1]; simpl in Hp.
          * specialize (IHd s1).
            destruct (vsi.nested_patch_items condition patch d s1)
              as [[rest' e] s2].
            simpl in *. eapply R_trans; eassumption.
          * assumption.
        + pose proof (Hx s0) as Hp.
          destruct (vsi.nested_patch_value condition patch x s0)
            as [[x' [e|]] s1]; simpl in Hp.
          * assumption.
          * specialize (IHd s1).
            destruct (vsi.nested_patch_items condition patch d s1)
              as [[rest' e] s2].
            simpl in *. eapply R_trans; eassumption. }
    specialize (Hwalk s).
    destruct (vsi.nested_patch_items condition patch d s) as [[d' e] s'].
    exact Hwalk.
Qed.

Lemma nested_patch_inplace_keeps :
  forall d s, R s (snd (vsi.nested_patch_inplace condition patch d s)).
Proof.
  intros d s. unfold vsi.nested_patch_inplace.
  pose proof (nested_patch_value_keeps (VDict d) s) as Hkeep.
  destruct (vsi.nested_patch_value condition patch (VDict d) s)
    as [[[] e] s']; exact Hkeep.
Qed.
End PatchInvariant.

Lemma read_json_sends :
  forall (H : Host) k v st n,
    count_sent n (snd (snd (LazySettings.read_json k v st)))
    = count_sent n (snd st).
Proof.
  intros H k v [g tr] n. unfold LazySettings.read_json.
  destruct v as [| b | z | s | s | f [|] | l | d]; simpl; try reflexivity;
    try (destruct (open_json s) as [loaded|]; [|reflexivity];
         destruct (Settings.new loaded); reflexivity).
  destruct (last (map Some g) None) as [[pattern settings]|]; [|reflexivity].
  destruct (property_call f settings) as [[v|e] settings']; simpl.
  - destruct v as [| b | z | s | s | f' sp | l | d]; simpl;
      try (rewrite count_sent_app; simpl; lia);
      (destruct (open_json s) as [loaded|];
       [destruct (Settings.new loaded)|]); simpl;
      rewrite count_sent_app; simpl; lia.
  - rewrite count_sent_app. simpl. lia.
Qed.

Lemma configure_inversion :
  forall (H : Host) arg w r w',
    LazySettings.configure arg w = (r, w') ->
    (_wrapped w <> None /\ w' = w /\ r <> Ok tt)
    \/ (exists e, Settings.new arg = Err e /\ w' = w /\ r <> Ok tt)
    \/ (exists c,
          _wrapped w = None /\ _wrapped w' = Some c
          /\ (forall n, n <> post_settings_configured ->
                        count_sent n (trace w') = count_sent n (trace w))
          /\ count_sent post_settings_configured (trace w')
             <= S (count_sent post_settings_configured (trace w))
          /\ (r = Ok tt ->
              count_sent post_settings_configured (trace w')
              = S (count_sent post_settings_configured (trace w)))).
Proof.
  intros H arg w r w' Hrun. unfold LazySettings.configure in Hrun.
  destruct (_wrapped w) as [c|] eqn:Hw.
  - left. injection Hrun as <- <-. repeat split; discriminate.
  - destruct (Settings.new arg) as [c0|e0] eqn:Hnew;
      [|right; left; exists e0; injection Hrun as <- <-;
        repeat split; discriminate].
    right. right.
    pose proof (nested_patch_inplace_keeps _
                  LazySettings.include_condition LazySettings.read_json
                  (fun a b => forall n,
                       count_sent n (snd b) = count_sent n (snd a))
                  (fun s n => eq_refl)
                  (fun a b c Hab Hbc n => eq_trans (Hbc n) (Hab n))
                  (fun k v s n => read_json_sends H k v s n)
                  (LazySettings.apply_templates (global_templates w)
                     (Settings.items c0))
                  (global_templates w, trace w)) as Hpatch.
    destruct (vsi.nested_patch_inplace LazySettings.include_condition
                LazySettings.read_json
                (LazySettings.apply_templates (global_templates w)
                   (Settings.items c0))
                (global_templates w, trace w))
      as [[c2 [e'|]] [templates tr]]; simpl in Hpatch.
    + injection Hrun as <- <-. eexists. split; [reflexivity|].
      split; [reflexivity|]. simpl.
      split; [intros n _; apply Hpatch|].
      split; [rewrite Hpatch; lia|discriminate].
    + match type of Hrun with
      | context [LazySettings.publish ?n ?named ?w1] =>
          pose proof (publish_effect H n named w1) as (Hpw & _ & Hcount & Hother);
          destruct (LazySettings.publish n named w1) as [[l|e2] w2]
      end; injection Hrun as <- <-; cbn [snd] in *;
        (eexists; split; [reflexivity|]; split; [exact Hpw|];
         split; [intros n Hn; rewrite (Hother n Hn); apply Hpatch|];
         rewrite Hcount; simpl; rewrite Hpatch;
         split; [lia|intros; reflexivity]).
Qed.

(** X9: A successful [configure] installs a container and calls [send]
    exactly once on [post_settings_configured]; whatever the outcome,
    [configure] never sends [post_settings_context] and never sends
    [post_settings_configured] twice. *)
Theorem configure_publishes_once :
  forall (H : Host) arg w r w',
    LazySettings.configure arg w = (r, w') ->
    count_sent post_settings_context (trace w')
    = count_sent post_settings_context (trace w)
    /\ count_sent post_settings_configured (trace w')
       <= S (count_sent post_settings_configured (trace w))
    /\ (r = Ok tt ->
        LazySettings.configured w' = true
        /\ count_sent post_settings_configured (trace w')
           = S (count_sent post_settings_configured (trace w))).
Proof.
  intros H arg w r w' Hrun.
  destruct (configure_inversion H arg w r w' Hrun)
    as [(_ & -> & Hr)
       | [(e0 & _ & -> & Hr) | (c & _ & Hw' & Hother & Hle & Hok)]].
  - split; [reflexivity|]. split; [lia|]. intros Hr'. contradiction.
  - split; [reflexivity|]. split; [lia|]. intros Hr'. contradiction.
  - split; [apply Hother; discriminate|]. split; [assumption|].
    intros Hr. split; [|now apply Hok].
    unfold LazySettings.configured. now rewrite Hw'.
Qed.

Lemma configure_publishes_once_witness :
  LazySettings.configured
    (snd (@LazySettings.configure example_host (VDict example_user_settings)
            example_world)) = true
  /\ count_sent post_settings_configured
       (trace (snd (@LazySettings.configure example_host
                      (VDict example_user_settings) example_world)))
     = S (count_sent post_settings_configured (trace example_world)).
Proof.
  apply (proj2 (proj2 (configure_publishes_once example_host
                         (VDict example_user_settings) example_world (Ok tt)
                         (snd (@LazySettings.configure example_host
                                 (VDict example_user_settings) example_world))
                         eq_refl))).
  reflexivity.
Defined.

(** X10: [configure] works once: after a successful [configure] every
    further [configure] raises [ImproperlyConfigured] and changes
    nothing. *)
Theorem configure_twice_fails :
  forall (H : Host) arg arg' w w',
    LazySettings.configure arg w = (Ok tt, w') ->
    LazySettings.configure arg' w'
    = (Err (ImproperlyConfigured "Settings already configured."), w').
Proof.
  intros H arg arg' w w' Hrun.
  destruct (configure_inversion H arg w (Ok tt) w' Hrun)
    as [(_ & _ & Hr) | [(e0 & _ & _ & Hr) | (c & _ & Hw' & _)]];
    try (now contradiction Hr).
  unfold LazySettings.configure. now rewrite Hw'.
Qed.

Lemma configure_twice_fails_witness :
  @LazySettings.configure example_host (VDict [])
    (snd (@LazySettings.configure example_host (VDict example_user_settings)
            example_world))
  = (Err (ImproperlyConfigured "Settings already configured."),
     snd (@LazySettings.configure example_host (VDict example_user_settings)
            example_world)).
Proof.
  apply (configure_twice_fails example_host (VDict example_user_settings)
           (VDict []) example_world).
  reflexivity.
Defined.

Lemma setup_without_variable :
  forall (H : Host) w,
    environ_get (environ w) ENVIRONMENT_VARIABLE = None
    \/ environ_get (environ w) ENVIRONMENT_VARIABLE = Some "" ->
    exists msg, LazySettings._setup w = (Err (ImproperlyConfigured msg), w).
Proof.
  intros H w [Henv|Henv]; unfold LazySettings._setup; rewrite Henv;
    eexists; reflexivity.
Qed.

(** X11: Before the settings are configured, and with [TERRA_SETTINGS_FILE]
    unset or empty, every access through the wrapper (attribute, item,
    assignment, deletion, [len], [in], iteration, scope entry) raises
    [ImproperlyConfigured] and leaves everything as it was: the wrapper
    stays unconfigured and nothing is sent. *)
Theorem unconfigured_access_fails :
  forall (H : Host) w name v,
    _wrapped w = None ->
    environ_get (environ w) ENVIRONMENT_VARIABLE = None
    \/ environ_get (environ w) ENVIRONMENT_VARIABLE = Some "" ->
    exists msg,
      LazySettings.__getattr__ name w = (Err (ImproperlyConfigured msg), w)
      /\ LazySettings.__getitem__ name w = (Err (ImproperlyConfigured msg), w)
      /\ LazySettings.__setitem__ name v w = (Err (ImproperlyConfigured msg), w)
      /\ LazySettings.__delitem__ name w = (Err (ImproperlyConfigured msg), w)
      /\ LazySettings.__len__ w = (Err (ImproperlyConfigured msg), w)
      /\ LazySettings.__contains__ name w = (Err (ImproperlyConfigured msg), w)
      /\ LazySettings.__iter__ w = (Err (ImproperlyConfigured msg), w)
      /\ LazySettings.__enter__ w = (Err (ImproperlyConfigured msg), w).
Proof.
  intros H w name v Hw Henv.
  destruct (setup_without_variable H w Henv) as [msg Hsetup].
  exists msg.
  assert (Hwrapped : LazyObject.wrapped LazySettings._setup w
                     = (Err (ImproperlyConfigured msg), w)).
  { unfold LazyObject.wrapped. now rewrite Hw, Hsetup. }
  unfold LazySettings.__getattr__, LazySettings.__getitem__,
    LazySettings.__setitem__, LazySettings.__delitem__, LazySettings.__len__,
    LazySettings.__contains__, LazySettings.__iter__, LazySettings.__enter__,
    LazyObject.__getattr__, LazyObject.__getitem__, LazyObject.__setitem__,
    LazyObject.__delitem__, LazyObject.__len__, LazyObject.__contains__,
    LazyObject.__iter__.
  rewrite Hwrapped. repeat split.
Qed.

Lemma unconfigured_access_fails_witness :
  exists msg,
    @LazySettings.__getattr__ example_host "resume" example_world
    = (Err (ImproperlyConfigured msg), example_world).
Proof.
  destruct (unconfigured_access_fails example_host example_world "resume"
              VNone eq_refl (or_introl eq_refl)) as (msg & Hattr & _).
  now exists msg.
Defined.

Lemma setattr_plain_value :
  forall name v c,
    is_mapping v = false ->
    Settings.__setattr__ name v c = Settings.__setitem__ name v c.
Proof.
  intros name v [d b] Hv.
  unfold Settings.__setattr__, Settings.__setitem__, ObjectDict.__setattr__,
    ObjectDict.update. simpl.
  now rewrite nested_update_value_leaf.
Qed.

(** X12: When the implicit set-up succeeds, the settings are configured and
    the key [config_file] holds the path taken from
    [TERRA_SETTINGS_FILE], also when the file itself sets
    [config_file]. *)
Theorem setup_records_config_file :
  forall (H : Host) w w',
    LazySettings._setup w = (Ok tt, w') ->
    exists path c,
      environ_get (environ w) ENVIRONMENT_VARIABLE = Some path
      /\ _wrapped w' = Some c
      /\ getitem (Settings.items c) "config_file" = Some (VStr path).
Proof.
  intros H w w' Hsetup. unfold LazySettings._setup in Hsetup.
  destruct (environ_get (environ w) ENVIRONMENT_VARIABLE) as [path|];
    [|discriminate].
  destruct path as [|a path]; [discriminate|].
  destruct (open_json (String a path)) as [arg|e]; [|discriminate].
  destruct (LazySettings.configure arg w) as [[[]|e] w1]; [|discriminate].
  destruct (_wrapped w1) as [c|]; [|discriminate].
  injection Hsetup as <-.
  exists (String a path). eexists. split; [reflexivity|].
  split; [reflexivity|].
  rewrite setattr_plain_value by reflexivity. simpl.
  apply getitem_setitem_same.
Qed.

Lemma setup_records_config_file_witness :
  exists path c,
    environ_get (environ example_env_world) ENVIRONMENT_VARIABLE = Some path
    /\ _wrapped (snd (@LazySettings._setup example_file_host example_env_world))
       = Some c
    /\ getitem (Settings.items c) "config_file" = Some (VStr path).
Proof.
  apply (setup_records_config_file example_file_host example_env_world).
  reflexivity.
Defined.

(** ** The whole template loop *)

Lemma apply_template_keeps :
  forall (t : template) c p v,
    wf_dict c = true ->
    wf_dict (snd t) = true ->
    (leaf_at c p v -> leaf_at (LazySettings.apply_template c t) p v)
    /\ wf_dict (LazySettings.apply_template c t) = true.
Proof.
  intros [pattern defaults] c p v Hc Hd. simpl in Hd.
  destruct (vsi.nested_in_dict pattern c) eqn:Hmatch.
  - rewrite apply_template_matching by assumption.
    assert (Hmerged : wf_dict (vsi.nested_update defaults c) = true)
      by now apply nested_update_wf.
    split; [|now apply nested_update_wf].
    intros Hleaf. apply incoming_leaves_win; [assumption|].
    now apply incoming_leaves_win.
  - unfold LazySettings.apply_template. rewrite Hmatch. now split.
Qed.

(** X13: No template of the registry overwrites what is set: every leaf of
    the container is a leaf with the same value after the whole loop over
    the templates, whichever of them match. *)
Theorem templates_keep_user_leaves :
  forall (templates : list template) c p v,
    wf_dict c = true ->
    Forall (fun t => wf_dict (snd t) = true) templates ->
    leaf_at c p v ->
    leaf_at (LazySettings.apply_templates templates c) p v
    /\ wf_dict (LazySettings.apply_templates templates c) = true.
Proof.
  unfold LazySettings.apply_templates.
  induction templates as [|t ts IH]; intros c p v Hc Hts Hleaf; simpl.
  - now split.
  - inversion Hts as [|t' ts' Ht Hts']; subst.
    destruct (apply_template_keeps t c p v Hc Ht) as [Hkeep Hwf].
    apply IH; auto.
Qed.

Lemma templates_keep_user_leaves_witness :
  leaf_at
    (LazySettings.apply_templates (initial_global_templates "node")
       [("compute", VDict [("arch", VStr "virtualenv")])])
    ["compute"; "arch"] (VStr "virtualenv").
Proof.
  apply (templates_keep_user_leaves (initial_global_templates "node")
           [("compute", VDict [("arch", VStr "virtualenv")])]
           ["compute"; "arch"] (VStr "virtualenv") eq_refl).
  - repeat constructor.
  - split; reflexivity.
Defined.

(** ** [add_templates] in general *)

(** X14: On a registry that is not empty, [add_templates] puts the new
    templates first, in the order given, followed by the registry as it
    was; on an empty registry the new templates end up in reverse order.
    Nothing else changes. *)
Theorem add_templates_registry :
  forall templates w,
    (global_templates w <> [] ->
     global_templates (LazySettings.add_templates templates w)
     = templates ++ global_templates w)
    /\ (global_templates w = [] ->
        global_templates (LazySettings.add_templates templates w)
        = rev templates)
    /\ _wrapped (LazySettings.add_templates templates w) = _wrapped w
    /\ trace (LazySettings.add_templates templates w) = trace w.
Proof.
  intros templates w. unfold LazySettings.add_templates. simpl.
  split; [apply add_templates_prepends|].
  split; [|split; reflexivity].
  intros ->. apply add_templates_empty_registry.
Qed.

Lemma add_templates_registry_witness :
  global_templates
    (LazySettings.add_templates [example_t1; example_t2] example_world)
  = [example_t1; example_t2] ++ global_templates example_world.
Proof.
  apply (proj1 (add_templates_registry [example_t1; example_t2] example_world)).
  discriminate.
Defined.

(** X15: Two calls of [add_templates] on a registry that is not empty: the
    templates of the later call come before those of the earlier call. *)
Theorem add_templates_twice :
  forall first second g,
    g <> [] ->
    LazySettings.add_templates_list second
      (LazySettings.add_templates_list first g)
    = second ++ first ++ g.
Proof.
  intros first second g Hg.
  rewrite (add_templates_prepends first g Hg).
  apply add_templates_prepends.
  destruct first; [assumption|discriminate].
Qed.

Lemma add_templates_twice_witness :
  LazySettings.add_templates_list [example_t2]
    (LazySettings.add_templates_list [example_t1]
       (initial_global_templates "node"))
  = [example_t2] ++ [example_t1] ++ initial_global_templates "node".
Proof.
  apply (add_templates_twice [example_t1] [example_t2]
           (initial_global_templates "node")).
  discriminate.
Defined.

(** ** What [send_robust] calls *)

(** X16: Outside unit-test mode, [send_robust] calls exactly the receivers
    that are registered for the sender or for every sender and are still
    alive, in the order in which they were connected; the cache of a
    signal built with [use_caching] never changes that. *)
Theorem send_robust_calls_registered :
  forall (H : Host) environ c sender named s l s' called,
    Signal.reachable c s ->
    Signal.unittest_mode environ = false ->
    Signal.send_robust environ c sender named s = (Ok l, s', called) ->
    called = Signal.registered_live c sender s
    /\ l = map (fun x => (x, receiver_call x sender named)) called.
Proof.
  intros H environ c sender named s l s' called Hreach Hflag Hsend.
  unfold Signal.send_robust in Hsend.
  pose proof (reachable_cache_exact c s Hreach sender) as Hexact.
  unfold Signal.no_dispatch, Signal.cache_get in Hsend.
  destruct (Signal.receivers s) as [|e rs] eqn:Hrs.
  - injection Hsend as <- _ <-. unfold Signal.registered_live.
    rewrite Hrs. now split.
  - destruct (Signal.use_caching s && negb (Signal.weakrefable sender));
      [discriminate|].
    assert (Hopen :
              (exists rs1,
                  Signal._live_receivers c sender s = (Ok rs1, s')
                  /\ Signal.call_all_robust sender named rs1 = (Ok l, called))
              \/ (filter (Signal.qualifies sender) (Signal.receivers s) = []
                  /\ l = [] /\ called = [])).
    { destruct (Signal.cache_lookup sender (Signal.sender_receivers_cache s))
        as [[|crs]|]; rewrite ?Hflag in Hsend;
        try (destruct (Signal._live_receivers c sender s) as [[rs1|e1] s1];
             [|discriminate];
             destruct (Signal.call_all_robust sender named rs1) as [l1 c1] eqn:E;
             injection Hsend as -> <- <-; left; exists rs1; now split).
      right. injection Hsend as <- _ <-.
      rewrite Hrs. now split. }
    destruct Hopen as [(rs1 & Hlive & Hcall) | (Hnone & -> & ->)].
    + apply call_all_robust_ok in Hcall as [-> ->].
      destruct (live_receivers_are_registered c sender s rs1 s' Hreach Hlive)
        as [-> _].
      now split.
    + unfold Signal.registered_live. rewrite Hnone. now split.
Qed.

Lemma send_robust_calls_registered_witness :
  [TObj 5; TObj 7; TObj 9] = Signal.registered_live [] TNone example_signal.
Proof.
  exact (proj1 (send_robust_calls_registered example_host [] [] TNone []
                  example_signal
                  [ (TObj 5, Returns VNone);
                    (TObj 7, Raises (OtherError "receiver failed"));
                    (TObj 9, Returns VNone) ]
                  example_signal [TObj 5; TObj 7; TObj 9]
                  example_signal_reachable eq_refl eq_refl)).
Defined.

(** ** More on attribute reads *)

(** X17: An error raised by a [settings_property] function reaches the
    reader unchanged, except a [KeyError]: that one is caught by the
    [except KeyError] of [__getattr__] and comes out as the
    [AttributeError] of a missing key.  [__getattr__] stores nothing
    then: the container is as the function left it.  On every container,
    reading a key that is missing raises that [AttributeError] and
    changes nothing. *)
Theorem property_error_propagation :
  forall (H : Host) name f c e d,
    getitem (Settings.items c) name = Some (VFunc f true) ->
    property_call f (Settings.items c) = (Raises e, d) ->
    Settings.__getattr__ name c
    = (Err (match e with
            | KeyError _ => no_attribute "Settings" name
            | _ => e
            end),
       Settings.mk d (Settings._backup c), [f])
    /\ (forall (c' : Settings.t) (missing : string),
          getitem (Settings.items c') missing = None ->
          Settings.__getattr__ missing c'
          = (Err (no_attribute "Settings" missing), c', [])).
Proof.
  intros H name f c e d Hget Hcall. split.
  - unfold Settings.__getattr__. rewrite Hget.
    unfold Settings.evaluate. rewrite Hcall.
    destruct e; reflexivity.
  - intros c' missing Hnone. unfold Settings.__getattr__. now rewrite Hnone.
Qed.

Lemma property_error_propagation_witness :
  @Settings.__getattr__ example_host "virtualenv_dir"
    (Settings.mk
       [("virtualenv_dir", VFunc "need_to_set_virtualenv_dir" true)] None)
  = (Err (ImproperlyConfigured
            "You are using the virtualenv compute, and did not set settings.compute.virtualenv_dir in your config file."),
     Settings.mk
       [("virtualenv_dir", VFunc "need_to_set_virtualenv_dir" true)] None,
     ["need_to_set_virtualenv_dir"]).
Proof.
  exact (proj1 (property_error_propagation example_host "virtualenv_dir"
                  "need_to_set_virtualenv_dir"
                  (Settings.mk
                     [("virtualenv_dir",
                       VFunc "need_to_set_virtualenv_dir" true)] None)
                  _ _ eq_refl eq_refl)).
Defined.

(** X18: A string under a key without a path suffix gets the variable
    expansion only, never the home-directory expansion, and gets it
    once however often the key is read. *)
Theorem plain_string_expanded_once :
  forall (H : Host) (name s : string) (c : Settings.t) (n : nat),
    any_endswith name filename_suffixes = false ->
    getitem (Settings.items c) name = Some (VStr s) ->
    read_many name (S n) c
    = (repeat (Ok (VExpanded (expandvars s))) (S n),
       Settings.mk (setitem name (VExpanded (expandvars s)) (Settings.items c))
         (Settings._backup c),
       []).
Proof.
  intros H name s c n Hsuffix Hget.
  change (read_many name (S n) c)
    with (let '(r, self1, called1) := Settings.__getattr__ name c in
          let '(rs, self2, called2) := read_many name n self1 in
          (r :: rs, self2, called1 ++ called2)).
  assert (Hfirst : Settings.__getattr__ name c
                   = (Ok (VExpanded (expandvars s)),
                      Settings.mk
                        (setitem name (VExpanded (expandvars s))
                           (Settings.items c)) (Settings._backup c), [])).
  { unfold Settings.__getattr__. rewrite Hget.
    unfold Settings.evaluate, Settings.expand. now rewrite Hsuffix. }
  rewrite Hfirst.
  rewrite (read_many_stable H name _ (VExpanded (expandvars s)) n);
    [reflexivity|].
  apply settings_getattr_expanded. simpl. apply getitem_setitem_same.
Qed.

Lemma plain_string_expanded_once_witness :
  @read_many example_host "level" 2 (Settings.mk [("level", VStr "$L")] None)
  = (repeat (Ok (VExpanded "$L+env")) 2,
     Settings.mk [("level", VExpanded "$L+env")] None, []).
Proof.
  exact (plain_string_expanded_once example_host "level" "$L"
           (Settings.mk [("level", VStr "$L")] None) 1 eq_refl eq_refl).
Defined.

Lemma keys_setitem_same :
  forall d k v x, getitem d k = Some x -> keys (setitem k v d) = keys d.
Proof.
  intros d k v x Hget. unfold keys. now apply (keys_setitem_present d k v x).
Qed.

(** X19: Reading a key that does not hold a [settings_property] calls
    nothing and touches no other key: the keys and their order, the
    values under the other keys and the scope stack are as before. *)
Theorem read_touches_only_its_key :
  forall (H : Host) name v c,
    getitem (Settings.items c) name = Some v ->
    (forall f, v <> VFunc f true) ->
    let '(r, c', called) := Settings.__getattr__ name c in
    called = []
    /\ Settings._backup c' = Settings._backup c
    /\ keys (Settings.items c') = keys (Settings.items c)
    /\ (forall k, k <> name ->
                  getitem (Settings.items c') k = getitem (Settings.items c) k).
Proof.
  intros H name v c Hget Hv. unfold Settings.__getattr__. rewrite Hget.
  assert (Heval : Settings.evaluate name v (Settings.items c)
                  = (Ok v, Settings.items c, [])).
  { destruct v as [| | | | | f [|] | |]; try reflexivity.
    exfalso. exact (Hv f eq_refl). }
  rewrite Heval. unfold Settings.expand.
  destruct v; simpl; repeat split; auto.
  - now apply (keys_setitem_same _ _ _ (VStr s)).
  - intros k Hk. apply getitem_setitem_other. congruence.
Qed.

Lemma read_touches_only_its_key_witness :
  snd (@Settings.__getattr__ example_host "data_dir" example_container) = []
  /\ getitem
       (Settings.items
          (snd (fst (@Settings.__getattr__ example_host "data_dir"
                       example_container)))) "resume"
     = Some (VBool true).
Proof.
  pose proof (read_touches_only_its_key example_host "data_dir"
                (VStr "~/data") example_container eq_refl) as Hread.
  destruct (@Settings.__getattr__ example_host "data_dir" example_container)
    as [[r c'] called].
  destruct Hread as (Hcalled & _ & _ & Hothers).
  - intros f. discriminate.
  - split; [exact Hcalled|].
    simpl. rewrite Hothers; [reflexivity|discriminate].
Defined.

(** ** Items: assignment, deletion, containment *)

Lemma getitem_delitem_other :
  forall d k k', k <> k' -> getitem (delitem k d) k' = getitem d k'.
Proof.
  induction d as [|[k0 v0] d IH]; intros k k' Hne; simpl; [reflexivity|].
  destruct (String.eqb k0 k) eqn:E; simpl.
  - apply String.eqb_eq in E. subst k0.
    destruct (String.eqb k k') eqn:E'; [|reflexivity].
    apply String.eqb_eq in E'. contradiction.
  - destruct (String.eqb k0 k'); [reflexivity|]. now apply IH.
Qed.

Lemma getitem_delitem_same :
  forall d k,
    nodup_keys (map fst d) = true -> getitem (delitem k d) k = None.
Proof.
  induction d as [|[k0 v0] d IH]; intros k Hnd; simpl in *; [reflexivity|].
  apply andb_true_iff in Hnd as [Hfresh Hnd].
  destruct (String.eqb k0 k) eqn:E; simpl.
  - apply String.eqb_eq in E. subst k0.
    apply getitem_none_iff. now apply negb_true_iff in Hfresh.
  - rewrite E. now apply IH.
Qed.

Lemma length_delitem :
  forall d k x,
    getitem d k = Some x -> S (List.length (delitem k d)) = List.length d.
Proof.
  induction d as [|[k0 v0] d IH]; intros k x Hget; simpl in *; [discriminate|].
  destruct (String.eqb k0 k); simpl; [reflexivity|].
  f_equal. now apply (IH k x).
Qed.

(** X20: Item assignment through the configured wrapper stores the value as
    it is: reading the item afterwards returns that value, whatever it is,
    the other items read as before, and nothing is called or sent. *)
Theorem setitem_then_getitem :
  forall (H : Host) w c k v,
    _wrapped w = Some c ->
    let w1 := snd (LazySettings.__setitem__ k v w) in
    LazySettings.__getitem__ k w1 = (Ok v, w1)
    /\ (forall k', k' <> k ->
                   fst (LazySettings.__getitem__ k' w1)
                   = fst (LazySettings.__getitem__ k' w))
    /\ trace w1 = trace w.
Proof.
  intros H w c k v Hw w1.
  assert (Hw1 : w1 = set_wrapped (Some (Settings.__setitem__ k v c)) w).
  { unfold w1, LazySettings.__setitem__, LazyObject.__setitem__,
      LazyObject.wrapped. now rewrite Hw. }
  rewrite Hw1.
  unfold LazySettings.__getitem__, LazyObject.__getitem__, LazyObject.wrapped.
  rewrite Hw. simpl. unfold Settings.__getitem__. simpl.
  rewrite getitem_setitem_same. split; [reflexivity|]. split; [|reflexivity].
  intros k' Hk. rewrite getitem_setitem_other by congruence. reflexivity.
Qed.

Lemma setitem_then_getitem_witness :
  @LazySettings.__getitem__ example_host "hook"
    (snd (@LazySettings.__setitem__ example_host "hook"
            (VFunc "unittest" true) example_configured))
  = (Ok (VFunc "unittest" true),
     snd (@LazySettings.__setitem__ example_host "hook"
            (VFunc "unittest" true) example_configured)).
Proof.
  exact (proj1 (setitem_then_getitem example_host example_configured
                  example_container "hook" (VFunc "unittest" true) eq_refl)).
Defined.

(** X21: Deleting an item through the configured wrapper: a key that is
    there is removed (reading it afterwards raises [KeyError], the
    length goes down by one, the other items stay), and a key that is
    not there raises [KeyError] and changes nothing. *)
Theorem delitem_removes_key :
  forall (H : Host) w c k,
    _wrapped w = Some c ->
    wf_dict (Settings.items c) = true ->
    match getitem (Settings.items c) k with
    | Some _ =>
        exists w1,
          LazySettings.__delitem__ k w = (Ok tt, w1)
          /\ fst (LazySettings.__getitem__ k w1) = Err (KeyError k)
          /\ (forall n, fst (LazySettings.__len__ w) = Ok n ->
                        fst (LazySettings.__len__ w1) = Ok (pred n))
          /\ (forall k', k' <> k ->
                         fst (LazySettings.__getitem__ k' w1)
                         = fst (LazySettings.__getitem__ k' w))
    | None => LazySettings.__delitem__ k w = (Err (KeyError k), w)
    end.
Proof.
  intros H w c k Hw Hwf.
  unfold LazySettings.__delitem__, LazyObject.__delitem__, LazyObject.wrapped,
    Settings.__delitem__.
  rewrite Hw.
  destruct (getitem (Settings.items c) k) as [x|] eqn:Hget.
  - eexists. split; [reflexivity|].
    unfold LazySettings.__getitem__, LazySettings.__len__,
      LazyObject.__getitem__, LazyObject.__len__, LazyObject.wrapped.
    rewrite Hw. simpl. unfold Settings.__getitem__, Settings.__len__. simpl.
    rewrite getitem_delitem_same by now apply wf_dict_nodup.
    split; [reflexivity|]. split.
    + intros n Hn. injection Hn as <-.
      now rewrite <- (length_delitem _ k x Hget).
    + intros k' Hk. rewrite getitem_delitem_other by congruence. reflexivity.
  - destruct w; simpl in *. now subst.
Qed.

Lemma delitem_removes_key_witness :
  match getitem (Settings.items example_container) "resume" with
  | Some _ =>
      exists w1,
        @LazySettings.__delitem__ example_host "resume" example_configured
        = (Ok tt, w1)
        /\ fst (@LazySettings.__getitem__ example_host "resume" w1)
           = Err (KeyError "resume")
        /\ (forall n,
              fst (@LazySettings.__len__ example_host example_configured) = Ok n ->
              fst (@LazySettings.__len__ example_host w1) = Ok (pred n))
        /\ (forall k', k' <> "resume" ->
                       fst (@LazySettings.__getitem__ example_host k' w1)
                       = fst (@LazySettings.__getitem__ example_host k'
                                example_configured))
  | None =>
      @LazySettings.__delitem__ example_host "resume" example_configured
      = (Err (KeyError "resume"), example_configured)
  end.
Proof.
  exact (delitem_removes_key example_host example_configured example_container
           "resume" eq_refl eq_refl).
Defined.

Lemma split_dot_append :
  forall k rest,
    split_dot k = None ->
    split_dot (String.append k (String "."%char rest)) = Some (k, rest).
Proof.
  induction k as [|a k IH]; intros rest Hk; simpl in *.
  - reflexivity.
  - destruct (Ascii.eqb a "."%char); [discriminate|].
    destruct (split_dot k) as [[first rest']|] eqn:E; [discriminate|].
    now rewrite IH.
Qed.

(** X22: [name in settings]: a name without a dot is looked up as a key; a
    name with a dot is split at its first dot and never looked up as a
    key itself, so when the part before the dot is not a key the answer
    is [False] even if the whole name is a key.  When the part before the
    dot holds a mapping and the rest has no dot, the answer is whether
    the mapping has the rest as a key, whatever class the mapping has; a
    plain [dict] there is asked for the whole rest as one key, dots
    included; a string there answers with the substring test. *)
Theorem contains_follows_dots :
  forall (H : Host) (d : dict) (name : string),
    (split_dot name = None ->
     ObjectDict.__contains__ name d
     = Ok (match getitem d name with Some _ => true | None => false end))
    /\ (forall first rest,
          split_dot name = Some (first, rest) ->
          getitem d first = None ->
          ObjectDict.__contains__ name d = Ok false)
    /\ (forall k1 k2 d1,
          name = String.append k1 (String "."%char k2) ->
          split_dot k1 = None ->
          split_dot k2 = None ->
          getitem d k1 = Some (VDict d1) ->
          ObjectDict.__contains__ name d
          = Ok (match getitem d1 k2 with Some _ => true | None => false end))
    /\ (forall k1 rest d1,
          name = String.append k1 (String "."%char rest) ->
          split_dot k1 = None ->
          getitem d k1 = Some (VDict d1) ->
          nested_object_dict [k1] = false ->
          ObjectDict.__contains__ name d
          = Ok (match getitem d1 rest with Some _ => true | None => false end))
    /\ (forall k1 rest s,
          name = String.append k1 (String "."%char rest) ->
          split_dot k1 = None ->
          getitem d k1 = Some (VStr s) ->
          ObjectDict.__contains__ name d = Ok (is_substring rest s)).
Proof.
  intros H d name. unfold ObjectDict.__contains__.
  split; [|split; [|split; [|split]]].
  - intros Hsplit. now rewrite Hsplit.
  - intros first rest Hsplit Hfirst. now rewrite Hsplit, Hfirst.
  - intros k1 k2 d1 -> Hk1 Hk2 Hget.
    rewrite (split_dot_append k1 k2 Hk1), Hget.
    cbn [py_contains]. rewrite Hk2.
    destruct (nested_object_dict [k1]); reflexivity.
  - intros k1 rest d1 -> Hk1 Hget Hplain.
    rewrite (split_dot_append k1 rest Hk1), Hget.
    cbn [py_contains]. now rewrite Hplain.
  - intros k1 rest s0 -> Hk1 Hget.
    now rewrite (split_dot_append k1 rest Hk1), Hget.
Qed.

Lemma contains_follows_dots_witness :
  @ObjectDict.__contains__ example_host "logging.level" example_user_settings
  = Ok true
  /\ @ObjectDict.__contains__ example_host "a.b" [("a.b", VInt 1)] = Ok false
  /\ @ObjectDict.__contains__ example_host "a.b" [("a", VStr "xbx")] = Ok true.
Proof.
  split; [|split].
  - apply (proj1 (proj2 (proj2 (contains_follows_dots example_host
                                  example_user_settings "logging.level")))
             "logging" "level" [("level", VStr "DEBUG")]);
      reflexivity.
  - apply (proj1 (proj2 (contains_follows_dots example_host
                           [("a.b", VInt 1)] "a.b"))
             "a" "b" eq_refl eq_refl).
  - apply (proj2 (proj2 (proj2 (proj2 (contains_follows_dots example_host
                                         [("a", VStr "xbx")] "a.b"))))
             "a" "b" "xbx"); reflexivity.
Defined.

(** ** Applying a template twice *)

Lemma setitem_same_value :
  forall d k y, getitem d k = Some y -> setitem k y d = d.
Proof.
  induction d as [|[k0 v0] d IH]; intros k y Hget; simpl in *; [discriminate|].
  destruct (String.eqb k0 k) eqn:E.
  - now injection Hget as ->.
  - now rewrite IH.
Qed.

Lemma absorbed_dict :
  forall i j,
    absorbed (VDict i) (VDict j)
    <-> Forall (fun kv => exists y, getitem j (fst kv) = Some y
                                    /\ absorbed (snd kv) y) i.
Proof.
  intros i j. simpl. induction i as [|[k x] i IH]; simpl.
  - split; [constructor|trivial].
  - split.
    + intros [Hx Hrest]. constructor; [|now apply IH].
      cbn [fst snd]. destruct (getitem j k) as [y|]; [|contradiction].
      exists y. split; [reflexivity|exact Hx].
    + intros Hall. inversion Hall as [|kv l (y & Hy & Hxy) Hrest]; subst.
      simpl in Hy. rewrite Hy. split; [assumption|now apply IH].
Qed.

Lemma absorbed_dict_intro :
  forall i j,
    nodup_keys (map fst i) = true ->
    (forall k x, getitem i k = Some x ->
                 exists y, getitem j k = Some y /\ absorbed x y) ->
    absorbed (VDict i) (VDict j).
Proof.
  intros i j Hnd Hall. apply absorbed_dict.
  induction i as [|[k x] i IH]; constructor.
  - apply Hall. simpl. now rewrite String.eqb_refl.
  - simpl in Hnd. apply andb_true_iff in Hnd as [Hfresh Hnd].
    apply negb_true_iff in Hfresh.
    apply IH; [assumption|].
    intros k' x' Hget. apply Hall. simpl.
    destruct (String.eqb k k') eqn:E; [|assumption].
    apply String.eqb_eq in E. subst k'.
    apply getitem_none_iff in Hfresh. congruence.
Qed.

(** Merging something that is absorbed changes nothing. *)
Lemma nested_update_absorbed :
  forall v w, absorbed v w -> vsi.nested_update_value (Some w) v = w.
Proof.
  induction v as [v Hatom | l _ | i IH] using value_induction; intros w Habs.
  - destruct v; simpl in *; try (now symmetry); discriminate.
  - simpl in *. now symmetry.
  - destruct w as [| | | | | | |j]; try contradiction.
    rewrite nested_update_value_dict. f_equal.
    apply absorbed_dict in Habs.
    induction i as [|[k x] i IHi]; simpl; [reflexivity|].
    inversion IH as [|kv l Hx Hrest]; subst.
    inversion Habs as [|kv l (y & Hy & Hxy) Habs']; subst. simpl in *.
    rewrite Hy, (Hx y Hxy), (setitem_same_value j k y Hy).
    now apply IHi.
Qed.

Lemma absorbed_refl :
  forall v, well_formed v = true -> absorbed v v.
Proof.
  induction v as [v Hatom | l _ | d IH] using value_induction; intros Hwf.
  - destruct v; try reflexivity; discriminate.
  - reflexivity.
  - rewrite well_formed_dict in Hwf. apply andb_true_iff in Hwf as [Hnd Hall].
    apply absorbed_dict_intro; [assumption|].
    intros k x Hget. exists x. split; [assumption|].
    clear Hnd. induction d as [|[k0 x0] d IHd]; simpl in *; [discriminate|].
    inversion IH as [|kv l Hx Hrest]; subst. simpl in Hx.
    apply andb_true_iff in Hall as [Hx0 Hall].
    destruct (String.eqb k0 k).
    + injection Hget as <-. now apply Hx.
    + now apply IHd.
Qed.

Lemma wf_dict_of :
  forall (o : option value),
    (forall x, o = Some x -> well_formed x = true) ->
    wf_dict (match o with Some (VDict d) => d | _ => [] end) = true.
Proof.
  intros [[]|] Ho; try reflexivity. now apply Ho.
Qed.

(** After the merge of a template, merging the defaults again finds
    everything in place. *)
Lemma template_merge_absorbs :
  forall cv c,
    cv = VDict c ->
    wf_dict c = true ->
    forall d,
      wf_dict d = true ->
      absorbed
        (VDict (vsi.nested_update d
                  (vsi.nested_update c (vsi.nested_update d c))))
        (VDict (vsi.nested_update c (vsi.nested_update d c))).
Proof.
  induction cv as [v Hatom | l _ | c0 IH] using value_induction;
    intros c Hcv Hc d Hd; try discriminate.
  - subst v. discriminate.
  - injection Hcv as ->.
    assert (Hm : wf_dict (vsi.nested_update d c) = true)
      by now apply nested_update_wf.
    assert (Hc' : wf_dict (vsi.nested_update c (vsi.nested_update d c)) = true)
      by now apply nested_update_wf.
    apply absorbed_dict_intro.
    { apply wf_dict_nodup. now apply nested_update_wf. }
    intros k x.
    rewrite (getitem_nested_update _ d k (wf_dict_nodup _ Hc')).
    rewrite (getitem_nested_update _ c k (wf_dict_nodup _ Hm)).
    rewrite (getitem_nested_update c d k (wf_dict_nodup _ Hc)).
    destruct (getitem c k) as [w|] eqn:Hck.
    + intros Hx. injection Hx as <-. eexists. split; [reflexivity|].
      destruct (is_mapping w) eqn:Hw.
      * destruct w as [| | | | | | |cw]; try discriminate.
        rewrite !nested_update_value_dict.
        assert (Hcw : wf_dict cw = true)
          by exact (wf_dict_getitem c k (VDict cw) Hc Hck).
        assert (Hdk : wf_dict (match getitem d k with
                               | Some (VDict d0) => d0
                               | _ => []
                               end) = true).
        { apply wf_dict_of. intros y Hy.
          exact (wf_dict_getitem d k y Hd Hy). }
        assert (Hin : In (k, VDict cw) c).
        { clear - Hck. induction c as [|[k0 v0] c IHc]; simpl in *;
            [discriminate|].
          destruct (String.eqb k0 k) eqn:E.
          - apply String.eqb_eq in E. subst. injection Hck as ->. now left.
          - right. now apply IHc. }
        rewrite Forall_forall in IH.
        exact (IH (k, VDict cw) Hin cw eq_refl Hcw _ Hdk).
      * rewrite (nested_update_value_leaf (getitem d k) w Hw).
        rewrite (nested_update_value_leaf (Some w) w Hw).
        rewrite (nested_update_value_leaf (getitem d k) w Hw).
        destruct w; try reflexivity; discriminate.
    + destruct (getitem d k) as [dv|] eqn:Hdk; [|discriminate].
      intros Hx. injection Hx as <-.
      assert (Hdv : well_formed dv = true)
        by exact (wf_dict_getitem d k dv Hd Hdk).
      rewrite (nested_update_value_fresh dv Hdv).
      exists dv. split; [reflexivity|].
      rewrite (nested_update_absorbed dv dv (absorbed_refl dv Hdv)).
      now apply absorbed_refl.
Qed.

(** X24: Applying a template a second time changes nothing: the defaults it
    would put in are already there. *)
Theorem apply_template_idempotent :
  forall (t : template) c,
    wf_dict c = true ->
    wf_dict (snd t) = true ->
    LazySettings.apply_template (LazySettings.apply_template c t) t
    = LazySettings.apply_template c t.
Proof.
  intros [pattern defaults] c Hc Hd. simpl in Hd.
  destruct (vsi.nested_in_dict pattern c) eqn:Hmatch.
  - rewrite (apply_template_matching pattern defaults c Hd Hmatch).
    set (c' := vsi.nested_update c (vsi.nested_update defaults c)).
    destruct (vsi.nested_in_dict pattern c') eqn:Hmatch'.
    + rewrite (apply_template_matching pattern defaults c' Hd Hmatch').
      pose proof (template_merge_absorbs (VDict c) c eq_refl Hc defaults Hd)
        as Habs.
      apply nested_update_absorbed in Habs.
      rewrite nested_update_value_dict in Habs. now injection Habs.
    + unfold LazySettings.apply_template. now rewrite Hmatch'.
  - unfold LazySettings.apply_template. now rewrite Hmatch, Hmatch.
Qed.

Lemma apply_template_idempotent_witness :
  LazySettings.apply_template
    (LazySettings.apply_template example_user_settings example_global_defaults)
    example_global_defaults
  = LazySettings.apply_template example_user_settings example_global_defaults.
Proof.
  apply (apply_template_idempotent example_global_defaults
           example_user_settings); reflexivity.
Defined.
